(** * SimRC: impedance of a series RC circuit, analytically and by spectral estimation

    A shallow embedding of [src/app.py] (class [SimRC], methods [set_Z],
    [set_V_in], [set_I_out] and [set_dfts]) and the properties its
    specification states about it.

    Numbers.  The one integer the code derives from floating-point values,
    the sample count [int(duration * samp_rate)], is modelled in IEEE 754
    binary64 exactly as CPython evaluates it (module [Binary64], on the
    Standard Library's [SpecFloat]; the proofs evaluate it on the kernel's
    primitive floats).  Every other float of the program
    (times, voltages, currents, spectra, impedances) is idealised as a real
    number: [sin], the Fourier transform and [abs] of a complex number are
    the mathematical functions.  Where numpy divides by a zero [Z] the
    quotients are infinities and NaN (module [Wide]).  Python exceptions
    are explicit results. *)

From Stdlib Require Floats Uint63.
From Stdlib Require Import ZArith List Bool Lia Reals Lra SpecFloat.
Import ListNotations.

(** ** Python results: a value or a raised exception *)

Module Py.

Inductive exn : Type :=
| ZeroDivisionError
| ValueError
| OverflowError.

Inductive result (A : Type) : Type :=
| Ok (a : A)
| Raise (e : exn).

Arguments Ok {A} a.
Arguments Raise {A} e.

Definition bind {A B : Type} (m : result A) (k : A -> result B) : result B :=
  match m with
  | Ok a => k a
  | Raise e => Raise e
  end.

(** Python's [int], and its [float] idealised as a real number. *)
Abbreviation int := BinNums.Z (only parsing).
Abbreviation real := Rdefinitions.R (only parsing).

(** [a / b] on Python floats: a zero divisor raises. *)
Definition truediv (a b : real) : result real :=
  if Req_dec_T b 0 then Raise ZeroDivisionError else Ok (a / b)%R.

End Py.

Declare Scope py_scope.
Delimit Scope py_scope with py.
Notation "x <- m ;; k" := (Py.bind m (fun x => k))
  (at level 61, m at next level, right associativity) : py_scope.

(** ** binary64 arithmetic, for the sample count *)

Module Binary64.

(** 53 bits of precision, exponents below 1024. *)
Definition prec : Z := 53.
Definition emax : Z := 1024.

(** [float(z)]: the integer rounded to nearest-even (exact below 2^53). *)
Definition of_int (z : Z) : spec_float := binary_normalize prec emax z 0 false.

(** [x / y] and [x * y], each rounded once to nearest-even. *)
Definition div : spec_float -> spec_float -> spec_float := SFdiv prec emax.
Definition mul : spec_float -> spec_float -> spec_float := SFmul prec emax.

(** [int(x)]: truncation toward zero; infinities and NaN raise. *)
Definition to_int (x : spec_float) : Py.result Z :=
  match x with
  | S754_zero _ => Py.Ok 0%Z
  | S754_finite s m e =>
      let a := (if 0 <=? e then Z.shiftl (Z.pos m) e
                else Z.shiftr (Z.pos m) (- e))%Z in
      Py.Ok (if s then (- a)%Z else a)
  | S754_infinity _ => Py.Raise Py.OverflowError
  | S754_nan => Py.Raise Py.ValueError
  end.

(** [a / b] on Python ints (true division); below 2^53 both operands
    convert exactly and the quotient is rounded once. *)
Definition int_truediv (a b : Z) : Py.result spec_float :=
  if (b =? 0)%Z then Py.Raise Py.ZeroDivisionError
  else Py.Ok (div (of_int a) (of_int b)).

End Binary64.

(** ** Complex numbers, as far as [complex], [abs] and the transform need them *)

Module Cplx.

Record complex : Type := mk { re : R; im : R }.

Definition zero : complex := mk 0 0.
Definition add (z w : complex) : complex := mk (re z + re w) (im z + im w).
(** A real sample times a complex factor. *)
Definition scale (x : R) (z : complex) : complex := mk (x * re z) (x * im z).
(** [exp(j * theta)]. *)
Definition cis (theta : R) : complex := mk (cos theta) (sin theta).
(** [abs(z)]. *)
Definition abs (z : complex) : R := sqrt (re z * re z + im z * im z).

End Cplx.

(** ** The numpy functions the methods call *)

Module Np.

Import Py.
Local Open Scope R_scope.

Definition ndarray : Type := list R.

(** [np.linspace(start, stop, num)] with [endpoint=True]: [num - 1]
    multiples of the step from [start], then [stop] itself. *)
Definition linspace (start stop : R) (num : Z) : result ndarray :=
  if (num <? 0)%Z then Raise ValueError
  else
    match Z.to_nat num with
    | O => Ok []
    | S O => Ok [start]
    | S div =>
        let step := (stop - start) / INR div in
        Ok (map (fun i => INR i * step + start) (seq 0 div) ++ [stop])
    end.

(** Bin [k] of the discrete Fourier transform of [a]:
    [sum_m a[m] * exp(-2 pi j m k / n)]. *)
Definition dft_bin (a : ndarray) (k : nat) : Cplx.complex :=
  fold_right Cplx.add Cplx.zero
    (map (fun m => Cplx.scale (nth m a 0)
                     (Cplx.cis (- (2 * PI * INR m * INR k / INR (length a)))))
         (seq 0 (length a))).

(** [np.fft.fft(a)]: refuses an empty array. *)
Definition fft (a : ndarray) : result (list Cplx.complex) :=
  match a with
  | [] => Raise ValueError
  | _ => Ok (map (dft_bin a) (seq 0 (length a)))
  end.

(** [np.abs] on a complex array. *)
Definition abs (zs : list Cplx.complex) : ndarray := map Cplx.abs zs.

(** [np.max]: refuses an empty array. *)
Definition max (a : ndarray) : result R :=
  match a with
  | [] => Raise ValueError
  | x :: r => Ok (fold_left Rmax r x)
  end.

(** A float64 scalar as numpy returns it from a division: dividing by
    zero warns and yields an infinity or NaN instead of raising. *)
Inductive float64 : Type :=
| Finite (x : R)
| Inf (negative : bool)
| NaN.

Definition true_divide (a b : R) : float64 :=
  if Req_dec_T b 0 then
    if Req_dec_T a 0 then NaN
    else Inf (if Rlt_dec a 0 then true else false)
  else Finite (a / b).

End Np.

(** ** class SimRC *)

Module SimRC.

Import Py.
Local Open Scope R_scope.
Local Open Scope py_scope.

Record state : Type := mkState {
  freq : int;
  cycle_num : int;
  R : int;
  nC : int;
  Z : real;
  V_in : Np.ndarray;
  t : Np.ndarray;
  I_out : Np.ndarray;
  V_dft : Np.ndarray;
  I_dft : Np.ndarray;
  V_amp : real;
  I_amp : real;
  Z_calc : Np.float64
}.

(** Amplitude of the input voltage wave. *)
Definition amp : real := 3.3 / 2.

(** The bounds declared on the four parameters ([param.Integer(bounds=...)]). *)
Definition freq_bounds : int * int := (1, 10000)%Z.
Definition cycle_num_bounds : int * int := (1, 10)%Z.
Definition R_bounds : int * int := (1, 10000)%Z.
Definition nC_bounds : int * int := (1, 1000)%Z.

Definition within (b : int * int) (v : int) : bool :=
  ((fst b <=? v) && (v <=? snd b))%Z.

Definition valid (self : state) : bool :=
  within freq_bounds (freq self) && within cycle_num_bounds (cycle_num self)
  && within R_bounds (R self) && within nC_bounds (nC self).

(** The class attributes before any method has run. *)
Definition init : state :=
  {| freq := 1; cycle_num := 1; R := 1; nC := 1;
     Z := 0; V_in := [0]; t := [0]; I_out := [0];
     V_dft := [0]; I_dft := [0]; V_amp := 0; I_amp := 0;
     Z_calc := Np.Finite 0 |}.

Definition with_Z (self : state) (v : real) : state :=
  mkState (freq self) (cycle_num self) (R self) (nC self) v (V_in self)
    (t self) (I_out self) (V_dft self) (I_dft self) (V_amp self)
    (I_amp self) (Z_calc self).

Definition with_t_V_in (self : state) (ts vs : Np.ndarray) : state :=
  mkState (freq self) (cycle_num self) (R self) (nC self) (Z self) vs
    ts (I_out self) (V_dft self) (I_dft self) (V_amp self)
    (I_amp self) (Z_calc self).

Definition with_I_out (self : state) (v : Np.ndarray) : state :=
  mkState (freq self) (cycle_num self) (R self) (nC self) (Z self)
    (V_in self) (t self) v (V_dft self) (I_dft self) (V_amp self)
    (I_amp self) (Z_calc self).

Definition with_dfts (self : state) (vd id : Np.ndarray) (va ia : real)
    (zc : Np.float64) : state :=
  mkState (freq self) (cycle_num self) (R self) (nC self) (Z self)
    (V_in self) (t self) (I_out self) vd id va ia zc.

(** [set_Z]: [C = nC * 10e-9]; [Z = abs(complex(R, -1/(freq*C)))].  (Over
    the reals: the roundings of the float operations are left out, and so is
    the [OverflowError] of an int too large for a float.) *)
Definition set_Z (self : state) : result state :=
  let C := IZR (nC self) * 10e-9 in
  x <- truediv (-1) (IZR (freq self) * C) ;;
  Ok (with_Z self (Cplx.abs (Cplx.mk (IZR (R self)) x))).

(** [samp_num = int(duration * samp_rate)] with [duration = cycle_num / freq]
    and [samp_rate = freq * 100], in binary64. *)
Definition samp_num (cycle_num freq : int) : result int :=
  duration <- Binary64.int_truediv cycle_num freq ;;
  let samp_rate := (freq * 100)%Z in
  Binary64.to_int (Binary64.mul duration (Binary64.of_int samp_rate)).

(** [amp * np.sin(freq * (2 * np.pi * t))] at one time [ti]. *)
Definition sample (self : state) (ti : real) : real :=
  amp * sin (IZR (freq self) * (2 * PI * ti)).

(** [set_V_in]: the time grid and the sine sampled on it. *)
Definition set_V_in (self : state) : result state :=
  duration <- truediv (IZR (cycle_num self)) (IZR (freq self)) ;;
  n <- samp_num (cycle_num self) (freq self) ;;
  ts <- Np.linspace 0 duration n ;;
  Ok (with_t_V_in self ts
        (map (sample self) ts)).

(** [set_I_out]: [I_out = (- V_in) / Z], a new array.  (With [Z = 0] numpy
    fills the array with infinities and NaN, which a real-valued array does
    not hold; the statements below about [I_out] have [0 < Z], and module
    [Wide] follows the division by a zero [Z].) *)
Definition set_I_out (self : state) : result state :=
  Ok (with_I_out self (map (fun v => (- v) / Z self) (V_in self))).

(** [2 * np.abs(np.fft.fft(a)) / len(a)], then the first half and its
    maximum: the body [set_dfts] runs once for [V_in] and once for [I_out]. *)
Definition half_spectrum (a : Np.ndarray) : result (Np.ndarray * real) :=
  X <- Np.fft a ;;
  let dft := map (fun m => 2 * m / INR (length a)) (Np.abs X) in
  let half := firstn (length dft / 2) dft in
  peak <- Np.max half ;;
  Ok (half, peak).

Definition set_dfts (self : state) : result state :=
  v <- half_spectrum (V_in self) ;;
  i <- half_spectrum (I_out self) ;;
  Ok (with_dfts self (fst v) (fst i) (snd v) (snd i)
        (Np.true_divide (snd v) (snd i))).

(** One full recomputation after a parameter change.  The class has no
    method of this name: the four methods are watchers ([param.depends]
    with [watch=True]), run here once each in the order of the dependencies
    they declare: [Z] from the parameters, [V_in] from the parameters,
    [I_out] from [V_in] (reading [Z]), the spectra from [V_in] and [I_out]. *)
Definition compare (self : state) : result state :=
  s1 <- set_Z self ;;
  s2 <- set_V_in s1 ;;
  s3 <- set_I_out s2 ;;
  set_dfts s3.

(** The state with the four parameters assigned. *)
Definition with_params (self : state) (f c r n : int) : state :=
  mkState f c r n (Z self) (V_in self) (t self) (I_out self) (V_dft self)
    (I_dft self) (V_amp self) (I_amp self) (Z_calc self).

End SimRC.

(** ** Checking a predicate on consecutive integers *)

(** [P z && P (z + 1) && ...], [fuel] of them. *)
Fixpoint forall_from (fuel : nat) (z : Z) (P : Z -> bool) : bool :=
  match fuel with
  | O => true
  | S m => P z && forall_from m (z + 1)%Z P
  end.

(** The sample count on primitive floats, for operands below 2^63. *)
Definition samp_num_prim (c f : Z) : Py.result Z :=
  let float_of (z : Z) := PrimFloat.of_uint63 (Uint63.of_Z z) in
  Binary64.to_int
    (FloatOps.Prim2SF
       (PrimFloat.mul (PrimFloat.div (float_of c) (float_of f))
          (float_of (f * 100)%Z))).

(** The count is [100 * c] or one less. *)
Definition samp_num_near (c f : Z) : bool :=
  match samp_num_prim c f with
  | Py.Ok n => ((n =? 100 * c) || (n =? 100 * c - 1))%Z
  | Py.Raise _ => false
  end.

(** [g z + g (z + 1) + ...], [fuel] of them. *)
Fixpoint sum_from (fuel : nat) (z : Z) (g : Z -> nat) : nat :=
  match fuel with
  | O => O
  | S m => (g z + sum_from m (z + 1)%Z g)%nat
  end.

(** A count one short of [100 * c], as a 0/1 indicator. *)
Definition short_of (count : Py.result Z) (c : Z) : nat :=
  match count with
  | Py.Ok n => if (n =? 100 * c - 1)%Z then 1%nat else 0%nat
  | Py.Raise _ => 0%nat
  end.

(** How many valid pairs [(cycle_num, freq)] get [100 * cycle_num - 1]
    samples. *)
Definition short_pairs (samp : Z -> Z -> Py.result Z) : nat :=
  sum_from (100 * 100) 1 (fun f => sum_from 10 1 (fun c => short_of (samp c f) c)).

(** ** Finite sums, and the two parts of a transform bin *)

(** [g 0 + ... + g (n - 1)]. *)
Fixpoint sumf (n : nat) (g : nat -> R) : R :=
  match n with
  | O => 0%R
  | S m => (sumf m g + g m)%R
  end.

(** The angle [2 pi m k / n] of sample [m] in bin [k]. *)
Definition angle (n m k : nat) : R := (2 * PI * INR m * INR k / INR n)%R.

Definition dft_re (a : Np.ndarray) (k : nat) : R :=
  sumf (length a) (fun m => nth m a 0 * cos (angle (length a) m k))%R.

Definition dft_im (a : Np.ndarray) (k : nat) : R :=
  (- sumf (length a) (fun m => nth m a 0 * sin (angle (length a) m k)))%R.

(** One term of the inverse transform at sample [l]. *)
Definition inv_term (a : Np.ndarray) (l k : nat) : R :=
  (dft_re a k * cos (angle (length a) l k)
   - dft_im a k * sin (angle (length a) l k))%R.

(** The single-sided amplitudes [2 |X_k| / n] of the bins below [n / 2]. *)
Definition spectrum (a : Np.ndarray) : Np.ndarray :=
  map (fun k => 2 * Cplx.abs (Np.dft_bin a k) / INR (length a))%R
      (seq 0 (length a / 2)).

(** The impedance [set_Z] stores: [sqrt(R^2 + X^2)] with the reactance
    [X = 1 / (freq * C)] and [C = nC * 1e-8]. *)
Definition reactance (self : SimRC.state) : R :=
  (1 / (IZR (SimRC.freq self) * (IZR (SimRC.nC self) * 1e-8)))%R.

Definition impedance (self : SimRC.state) : R :=
  sqrt (IZR (SimRC.R self) ^ 2 + reactance self ^ 2).

(** The state [compare] reaches from [self] with time grid [ts] and
    voltage peak [p]. *)
Definition compared (self : SimRC.state) (ts : Np.ndarray) (p : R) : SimRC.state :=
  let z := impedance self in
  let V := map (SimRC.sample self) ts in
  let I := map (fun v => (- v) / z)%R V in
  SimRC.with_dfts
    (SimRC.with_I_out (SimRC.with_t_V_in (SimRC.with_Z self z) ts V) I)
    (spectrum V) (spectrum I) p (p / z)%R (Np.Finite z).

(** A Python int that converts to a float without rounding or overflow.
    (An int too large for a float makes [set_Z] and [set_V_in] raise
    [OverflowError]; the models of these methods hold no such path, and the
    statements about parameters outside the declared bounds are made for
    ints of this size.) *)
Definition exact_int (z : Z) : bool := (Z.abs z <? 2 ^ 53)%Z.

Definition exact_params (self : SimRC.state) : bool :=
  exact_int (SimRC.freq self) && exact_int (SimRC.cycle_num self)
  && exact_int (SimRC.R self) && exact_int (SimRC.nC self).

(** ** Arrays that hold infinities and NaN *)

(** [set_I_out] divides inside numpy, which warns and never raises: while
    [Z] is [0] the quotients are infinities and NaN.  The values that can
    then stop being numbers are [I_out], [I_dft], [I_amp] and [Z_calc]
    ([Z], [t], [V_in], [V_dft] and [V_amp] are always numbers); this module
    follows [set_I_out] and [set_dfts] on them. *)
Module Wide.

Import Py.
Local Open Scope R_scope.
Local Open Scope py_scope.

Definition warray : Type := list Np.float64.

(** [a / z] on an array and a scalar, element by element. *)
Definition divide (a : Np.ndarray) (z : R) : warray :=
  map (fun v => Np.true_divide v z) a.

Definition is_nan (x : Np.float64) : bool :=
  match x with
  | Np.NaN => true
  | _ => false
  end.

(** The array as real numbers, when every entry is one. *)
Fixpoint all_finite (a : warray) : option Np.ndarray :=
  match a with
  | [] => Some []
  | Np.Finite x :: r => option_map (cons x) (all_finite r)
  | _ :: _ => None
  end.

(** [a / b] for a number [a] and a float64 [b]: a NaN divisor gives NaN, an
    infinite one a zero. *)
Definition divide_by (a : R) (b : Np.float64) : Np.float64 :=
  match b with
  | Np.Finite y => Np.true_divide a y
  | Np.Inf _ => Np.Finite 0
  | Np.NaN => Np.NaN
  end.

(** [2 * np.abs(np.fft.fft(a)) / len(a)], its first half and the maximum of
    that, on such an array.  A NaN among the samples reaches every bin of
    the transform, and [np.max] returns NaN when an entry is NaN.  [None]:
    the array holds infinities and no NaN, where the bins depend on the
    order in which the transform adds, which is not modelled. *)
Definition half_spectrum (a : warray) : result (option (warray * Np.float64)) :=
  match all_finite a with
  | Some l =>
      x <- SimRC.half_spectrum l ;;
      Ok (Some (map Np.Finite (fst x), Np.Finite (snd x)))
  | None =>
      if (length a <? 2)%nat then Raise ValueError
      else if existsb is_nan a
           then Ok (Some (repeat Np.NaN (length a / 2), Np.NaN))
           else Ok None
  end.

(** What [set_I_out] and [set_dfts] leave behind. *)
Record outcome : Type := mkOutcome {
  I_out : warray;
  V_amp : R;
  I_amp : Np.float64;
  Z_calc : Np.float64
}.

(** [set_I_out], then [set_dfts], on the [V_in] and [Z] of [self]. *)
Definition derive_and_estimate (self : SimRC.state) : result (option outcome) :=
  let I := divide (map Ropp (SimRC.V_in self)) (SimRC.Z self) in
  v <- SimRC.half_spectrum (SimRC.V_in self) ;;
  i <- half_spectrum I ;;
  Ok (option_map
        (fun i' => mkOutcome I (snd v) (snd i') (divide_by (snd v) (snd i')))
        i).

(** What assigning [cycle_num] runs: [set_V_in], which depends on it, then
    the watchers of [V_in], [set_I_out] and [set_dfts].  [set_Z] depends on
    [freq], [R] and [nC] only and does not run. *)
Definition on_cycle_num (self : SimRC.state) : result (option outcome) :=
  s <- SimRC.set_V_in self ;;
  derive_and_estimate s.

End Wide.

(** A fresh object whose [cycle_num] has just been set to 2: the other
    parameters and [Z] are the class attributes. *)
Definition two_cycles : SimRC.state := SimRC.with_params SimRC.init 1 2 1 1.

(** With no cycle at all the sample count is zero. *)
Definition zero_cycles_empty (f : Z) : bool :=
  match samp_num_prim 0 f with
  | Py.Ok n => (n =? 0)%Z
  | Py.Raise _ => false
  end.

(** ** The sample count, evaluated *)

Lemma forall_from_spec (fuel : nat) (P : Z -> bool) :
  forall z0 : Z, forall_from fuel z0 P = true ->
  forall z : Z, (z0 <= z < z0 + Z.of_nat fuel)%Z -> P z = true.
Proof.
  induction fuel as [|m IH]; intros z0 H z Hz.
  - simpl in Hz. lia.
  - cbn [forall_from] in H. apply andb_prop in H. destruct H as [H0 Hm].
    destruct (Z.eq_dec z z0) as [->|Hne]; [exact H0|].
    apply (IH (z0 + 1)%Z Hm). lia.
Qed.

Lemma of_int_prim (z : Z) :
  (0 <= z < 2 ^ 63)%Z ->
  Binary64.of_int z = FloatOps.Prim2SF (PrimFloat.of_uint63 (Uint63.of_Z z)).
Proof.
  intros Hz. unfold Binary64.of_int.
  rewrite FloatAxioms.of_uint63_spec, Uint63.of_Z_spec.
  rewrite Z.mod_small; [reflexivity|].
  unfold Uint63.wB. simpl. lia.
Qed.

Lemma samp_num_prim_eq (c f : Z) :
  (0 <= c < 2 ^ 63)%Z -> (1 <= f)%Z -> (f * 100 < 2 ^ 63)%Z ->
  SimRC.samp_num c f = samp_num_prim c f.
Proof.
  intros Hc Hf Hf100.
  unfold SimRC.samp_num, Binary64.int_truediv, samp_num_prim.
  destruct (Z.eqb_spec f 0) as [E|_]; [lia|].
  cbn [Py.bind].
  rewrite !of_int_prim by lia.
  unfold Binary64.div, Binary64.mul.
  rewrite FloatAxioms.mul_spec, FloatAxioms.div_spec. reflexivity.
Qed.

Lemma samp_num_range_check :
  forall_from (100 * 100) 1
    (fun f => forall_from 10 1 (fun c => samp_num_near c f)) = true.
Proof. vm_compute. reflexivity. Qed.

Lemma sum_from_ext (fuel : nat) (g h : Z -> nat) :
  forall z0 : Z,
  (forall z : Z, (z0 <= z < z0 + Z.of_nat fuel)%Z -> g z = h z) ->
  sum_from fuel z0 g = sum_from fuel z0 h.
Proof.
  induction fuel as [|m IH]; intros z0 E; [reflexivity|].
  cbn [sum_from]. rewrite (E z0) by lia.
  rewrite (IH (z0 + 1)%Z) by (intros z Hz; apply E; lia).
  reflexivity.
Qed.

(** 6385 of the 100000 valid pairs get one sample less than
    [100 * cycle_num]. *)
Lemma short_pairs_count : short_pairs SimRC.samp_num = 6385%nat.
Proof.
  transitivity (short_pairs samp_num_prim); [|vm_compute; reflexivity].
  unfold short_pairs.
  apply sum_from_ext. intros f Hf.
  assert (Hf' : (1 <= f <= 10000)%Z).
  { replace (Z.of_nat (100 * 100)) with 10000%Z in Hf by (vm_compute; reflexivity).
    lia. }
  apply sum_from_ext. intros c Hc.
  rewrite samp_num_prim_eq by (simpl in Hc; lia). reflexivity.
Qed.

(** ** The parameters within their declared bounds *)

Lemma valid_bounds (self : SimRC.state) :
  SimRC.valid self = true ->
  (1 <= SimRC.freq self <= 10000)%Z /\ (1 <= SimRC.cycle_num self <= 10)%Z /\
  (1 <= SimRC.R self <= 10000)%Z /\ (1 <= SimRC.nC self <= 1000)%Z.
Proof.
  unfold SimRC.valid, SimRC.within; cbn [fst snd SimRC.freq_bounds
    SimRC.cycle_num_bounds SimRC.R_bounds SimRC.nC_bounds].
  intros H. repeat (apply andb_prop in H; destruct H as [H ?]).
  repeat match goal with
         | E : (_ <=? _)%Z = true |- _ => apply Z.leb_le in E
         end.
  lia.
Qed.

(** For every valid pair the binary64 sample count is [100 * cycle_num] or
    one less: all 100000 pairs are evaluated. *)
Lemma samp_num_range (c f : Z) :
  (1 <= f <= 10000)%Z -> (1 <= c <= 10)%Z ->
  exists n : Z, SimRC.samp_num c f = Py.Ok n /\
                (n = 100 * c \/ n = 100 * c - 1)%Z.
Proof.
  intros Hf Hc.
  assert (Hf' : (1 <= f < 1 + Z.of_nat (100 * 100))%Z).
  { replace (Z.of_nat (100 * 100)) with 10000%Z by (vm_compute; reflexivity). lia. }
  pose proof (forall_from_spec _ _ _ samp_num_range_check f Hf') as Hrow.
  cbv beta in Hrow.
  assert (Hc' : (1 <= c < 1 + Z.of_nat 10)%Z) by (simpl; lia).
  pose proof (forall_from_spec _ _ _ Hrow c Hc') as Hcell.
  cbv beta in Hcell.
  rewrite samp_num_prim_eq by lia.
  unfold samp_num_near in Hcell.
  destruct (samp_num_prim c f) as [n|e]; [|discriminate].
  exists n. split; [reflexivity|].
  apply orb_prop in Hcell. destruct Hcell as [E|E]; apply Z.eqb_eq in E; lia.
Qed.

(** ** [np.linspace] *)

Section Linspace.
Local Open Scope R_scope.

Lemma nth_map_seq {A : Type} (f : nat -> A) (n i : nat) (d : A) :
  (i < n)%nat -> nth i (map f (seq 0 n)) d = f i.
Proof.
  intros Hi.
  rewrite nth_indep with (d' := f 0%nat) by (rewrite length_map, length_seq; exact Hi).
  rewrite map_nth, seq_nth by exact Hi. reflexivity.
Qed.

Lemma firstn_seq (k s n : nat) : (k <= n)%nat -> firstn k (seq s n) = seq s k.
Proof.
  revert s n. induction k as [|k IH]; intros s n Hk; [reflexivity|].
  destruct n as [|n]; [lia|].
  cbn [seq firstn]. rewrite IH by lia. reflexivity.
Qed.

Lemma linspace_spec (start stop : R) (num : Z) :
  (2 <= num)%Z ->
  exists ts : Np.ndarray,
    Np.linspace start stop num = Py.Ok ts /\
    length ts = Z.to_nat num /\
    (forall i : nat, (i < Z.to_nat num - 1)%nat ->
       nth i ts 0 = INR i * ((stop - start) / INR (Z.to_nat num - 1)) + start) /\
    nth (Z.to_nat num - 1) ts 0 = stop.
Proof.
  intros Hnum. unfold Np.linspace.
  destruct (Z.ltb_spec num 0) as [Hneg|_]; [lia|].
  destruct (Z.to_nat num) as [|[|d]] eqn:E; [lia|lia|].
  eexists. split; [reflexivity|].
  replace (S (S d) - 1)%nat with (S d) by lia.
  repeat split.
  - rewrite length_app, length_map, length_seq. simpl. lia.
  - intros i Hi.
    rewrite app_nth1 by (rewrite length_map, length_seq; exact Hi).
    rewrite nth_map_seq by exact Hi. reflexivity.
  - rewrite app_nth2 by (rewrite length_map, length_seq; lia).
    rewrite length_map, length_seq. rewrite Nat.sub_diag. reflexivity.
Qed.

End Linspace.

(** ** [set_V_in] on valid parameters *)

Section Synthesize.
Local Open Scope R_scope.

Lemma IZR_pos_neq_0 (z : Z) : (1 <= z)%Z -> IZR z <> 0.
Proof. intros H E. apply eq_IZR_R0 in E. lia. Qed.

Lemma IZR_pos_gt_0 (z : Z) : (1 <= z)%Z -> 0 < IZR z.
Proof. intros H. apply IZR_lt. lia. Qed.

Lemma truediv_ok (a b : R) : b <> 0 -> Py.truediv a b = Py.Ok (a / b).
Proof.
  intros Hb. unfold Py.truediv. destruct (Req_dec_T b 0) as [E|_]; [contradiction|reflexivity].
Qed.

Lemma truediv_zero (a : R) : Py.truediv a 0 = Py.Raise Py.ZeroDivisionError.
Proof.
  unfold Py.truediv. destruct (Req_dec_T 0 0) as [_|N]; [reflexivity|contradiction N; reflexivity].
Qed.

Lemma set_V_in_spec (self : SimRC.state) :
  SimRC.valid self = true ->
  exists (n : nat) (ts : Np.ndarray),
    SimRC.samp_num (SimRC.cycle_num self) (SimRC.freq self) = Py.Ok (Z.of_nat n) /\
    (Z.of_nat n = 100 * SimRC.cycle_num self \/
     Z.of_nat n = 100 * SimRC.cycle_num self - 1)%Z /\
    SimRC.set_V_in self = Py.Ok (SimRC.with_t_V_in self ts (map (SimRC.sample self) ts)) /\
    length ts = n /\
    forall i : nat, (i < n)%nat ->
      nth i ts 0 =
      INR i * (IZR (SimRC.cycle_num self) / IZR (SimRC.freq self) / INR (n - 1)).
Proof.
  intros Hv. destruct (valid_bounds self Hv) as (Hf & Hc & _ & _).
  destruct (samp_num_range (SimRC.cycle_num self) (SimRC.freq self) Hf Hc)
    as (z & Hz & Hrange).
  assert (Hz2 : (2 <= z)%Z) by lia.
  set (d := IZR (SimRC.cycle_num self) / IZR (SimRC.freq self)).
  destruct (linspace_spec 0 d z Hz2) as (ts & Hts & Hlen & Hnth & Hlast).
  exists (Z.to_nat z), ts.
  rewrite Z2Nat.id by lia.
  split; [exact Hz|]. split; [exact Hrange|]. split.
  - unfold SimRC.set_V_in.
    rewrite truediv_ok by (apply IZR_pos_neq_0; lia).
    cbn [Py.bind]. rewrite Hz. cbn [Py.bind]. fold d. rewrite Hts. reflexivity.
  - split; [exact Hlen|].
    intros i Hi.
    assert (Hn0 : INR (Z.to_nat z - 1) <> 0) by (apply not_0_INR; lia).
    assert (Hf0 : IZR (SimRC.freq self) <> 0) by (apply IZR_pos_neq_0; lia).
    destruct (Nat.eq_dec i (Z.to_nat z - 1)) as [->|Hne].
    + rewrite Hlast. unfold d. field. repeat split; assumption.
    + rewrite Hnth by lia. unfold d. field. repeat split; assumption.
Qed.

End Synthesize.

(** ** [set_Z]: the theoretical impedance *)

Section Impedance.
Local Open Scope R_scope.

(** The reactance term of [set_Z], without its sign. *)
Lemma set_Z_spec (self : SimRC.state) :
  SimRC.freq self <> 0%Z -> SimRC.nC self <> 0%Z ->
  SimRC.set_Z self = Py.Ok (SimRC.with_Z self (impedance self)).
Proof.
  intros Hf Hn.
  assert (Hf0 : IZR (SimRC.freq self) <> 0) by (intros E; apply eq_IZR_R0 in E; contradiction).
  assert (Hn0 : IZR (SimRC.nC self) <> 0) by (intros E; apply eq_IZR_R0 in E; contradiction).
  unfold SimRC.set_Z.
  rewrite truediv_ok.
  - cbn [Py.bind]. do 2 f_equal. unfold Cplx.abs, impedance, reactance.
    cbn [Cplx.re Cplx.im]. f_equal. field. split; assumption.
  - intros E. apply Rmult_integral in E. destruct E as [E|E]; [contradiction|].
    apply Rmult_integral in E. destruct E as [E|E]; [contradiction|lra].
Qed.

Lemma set_Z_zero_division (self : SimRC.state) :
  SimRC.freq self = 0%Z \/ SimRC.nC self = 0%Z ->
  SimRC.set_Z self = Py.Raise Py.ZeroDivisionError.
Proof.
  intros H. unfold SimRC.set_Z.
  replace (IZR (SimRC.freq self) * (IZR (SimRC.nC self) * 10e-9)) with 0.
  - rewrite truediv_zero. reflexivity.
  - destruct H as [-> | ->]; ring.
Qed.

Lemma reactance_pos (self : SimRC.state) :
  (1 <= SimRC.freq self)%Z -> (1 <= SimRC.nC self)%Z -> 0 < reactance self.
Proof.
  intros Hf Hn. unfold reactance.
  pose proof (IZR_pos_gt_0 _ Hf) as Hf0. pose proof (IZR_pos_gt_0 _ Hn) as Hn0.
  apply Rdiv_lt_0_compat; [lra|].
  apply Rmult_lt_0_compat; [exact Hf0|].
  apply Rmult_lt_0_compat; [exact Hn0|lra].
Qed.

Lemma impedance_pos (self : SimRC.state) :
  (1 <= SimRC.freq self)%Z -> (1 <= SimRC.nC self)%Z -> 0 < impedance self.
Proof.
  intros Hf Hn. unfold impedance. apply sqrt_lt_R0.
  pose proof (reactance_pos self Hf Hn) as Hx.
  pose proof (pow2_ge_0 (IZR (SimRC.R self))) as Hr2.
  assert (0 < reactance self ^ 2) by (apply pow_lt; exact Hx).
  lra.
Qed.

End Impedance.

(** ** Finite sums *)

Section Sums.
Local Open Scope R_scope.

Lemma sumf_ext (n : nat) (g h : nat -> R) :
  (forall m : nat, (m < n)%nat -> g m = h m) -> sumf n g = sumf n h.
Proof.
  induction n as [|n IH]; intros E; [reflexivity|].
  cbn [sumf]. rewrite IH by (intros m Hm; apply E; lia).
  rewrite E by lia. reflexivity.
Qed.

Lemma sumf_zero (n : nat) (g : nat -> R) :
  (forall m : nat, (m < n)%nat -> g m = 0) -> sumf n g = 0.
Proof.
  induction n as [|n IH]; intros E; [reflexivity|].
  cbn [sumf]. rewrite IH by (intros m Hm; apply E; lia).
  rewrite E by lia. ring.
Qed.

Lemma sumf_plus (n : nat) (g h : nat -> R) :
  sumf n (fun m => g m + h m) = sumf n g + sumf n h.
Proof.
  induction n as [|n IH]; cbn [sumf]; [ring|]. rewrite IH. ring.
Qed.

Lemma sumf_scal (n : nat) (c : R) (g : nat -> R) :
  sumf n (fun m => c * g m) = c * sumf n g.
Proof.
  induction n as [|n IH]; cbn [sumf]; [ring|]. rewrite IH. ring.
Qed.

Lemma sumf_scal_r (n : nat) (c : R) (g : nat -> R) :
  sumf n (fun m => g m * c) = sumf n g * c.
Proof.
  induction n as [|n IH]; cbn [sumf]; [ring|]. rewrite IH. ring.
Qed.

Lemma sumf_opp (n : nat) (g : nat -> R) :
  sumf n (fun m => - g m) = - sumf n g.
Proof.
  induction n as [|n IH]; cbn [sumf]; [ring|]. rewrite IH. ring.
Qed.

(** Exchanging two finite sums. *)
Lemma sumf_swap (n p : nat) (g : nat -> nat -> R) :
  sumf n (fun k => sumf p (fun m => g k m)) =
  sumf p (fun m => sumf n (fun k => g k m)).
Proof.
  induction n as [|n IH]; cbn [sumf].
  - symmetry. apply sumf_zero. reflexivity.
  - rewrite IH. rewrite <- sumf_plus. reflexivity.
Qed.

(** A sum whose terms vanish except at [j]. *)
Lemma sumf_single (n j : nat) (g : nat -> R) :
  (j < n)%nat ->
  (forall k : nat, (k < n)%nat -> k <> j -> g k = 0) ->
  sumf n g = g j.
Proof.
  induction n as [|n IH]; intros Hj E; [lia|].
  cbn [sumf].
  destruct (Nat.eq_dec j n) as [->|Hne].
  - rewrite sumf_zero by (intros m Hm; apply E; lia). ring.
  - rewrite IH by (try lia; intros k Hk Hkj; apply E; lia).
    rewrite (E n) by lia. ring.
Qed.

(** A sum whose terms vanish except at [j] and [j']. *)
Lemma sumf_two (n j j' : nat) (g : nat -> R) :
  (j < j')%nat -> (j' < n)%nat ->
  (forall k : nat, (k < n)%nat -> k <> j -> k <> j' -> g k = 0) ->
  sumf n g = g j + g j'.
Proof.
  induction n as [|n IH]; intros Hjj Hj E; [lia|].
  cbn [sumf].
  destruct (Nat.eq_dec j' n) as [->|Hne].
  - rewrite (sumf_single n j) by (try lia; intros k Hk Hkj; apply E; lia).
    reflexivity.
  - rewrite IH by (try lia; intros k Hk Hkj Hkj'; apply E; lia).
    rewrite (E n) by lia. ring.
Qed.

End Sums.

(** ** Sums of cosines over a full turn *)

Section Orthogonality.
Local Open Scope R_scope.

(** [2 sin(x/2) (cos 0 + cos x + ... + cos ((N-1) x))] telescopes. *)
Lemma cos_sum_telescope (x : R) (N : nat) :
  2 * sin (x / 2) * sumf N (fun k => cos (INR k * x)) =
  sin ((INR N - 1 / 2) * x) + sin (x / 2).
Proof.
  induction N as [|N IH].
  - cbn [sumf INR].
    replace ((0 - 1 / 2) * x) with (- (x / 2)) by field.
    rewrite sin_neg. ring.
  - cbn [sumf]. rewrite Rmult_plus_distr_l, IH. rewrite S_INR.
    replace ((INR N + 1 - 1 / 2) * x) with (INR N * x + x / 2) by field.
    replace ((INR N - 1 / 2) * x) with (INR N * x - x / 2) by field.
    rewrite sin_plus, sin_minus. ring.
Qed.

Lemma cos_sum_zero (n j : nat) :
  (0 < j)%nat -> (j < n)%nat ->
  sumf n (fun k => cos (INR k * (2 * PI * INR j / INR n))) = 0.
Proof.
  intros Hj Hjn.
  set (x := 2 * PI * INR j / INR n).
  assert (Hn : 0 < INR n) by (apply lt_0_INR; lia).
  assert (Hj0 : 0 < INR j) by (apply lt_0_INR; lia).
  assert (Hjn' : INR j < INR n) by (apply lt_INR; exact Hjn).
  pose proof PI_RGT_0 as Hpi.
  assert (Hs : 0 < sin (x / 2)).
  { apply sin_gt_0.
    - unfold x. apply Rdiv_lt_0_compat; [|lra].
      apply Rdiv_lt_0_compat; [|exact Hn].
      apply Rmult_lt_0_compat; [lra|exact Hj0].
    - unfold x. replace (2 * PI * INR j / INR n / 2) with (PI * (INR j / INR n)) by (field; lra).
      rewrite <- (Rmult_1_r PI) at 2.
      apply Rmult_lt_compat_l; [exact Hpi|].
      apply (Rmult_lt_reg_r (INR n)); [exact Hn|].
      unfold Rdiv. rewrite Rmult_assoc, Rinv_l by lra. lra. }
  pose proof (cos_sum_telescope x n) as T.
  replace ((INR n - 1 / 2) * x) with (- (x / 2) + 2 * INR j * PI) in T
    by (unfold x; field; lra).
  rewrite sin_period, sin_neg in T.
  assert (T' : 2 * sin (x / 2) * sumf n (fun k => cos (INR k * x)) = 0) by lra.
  apply Rmult_integral in T'. destruct T' as [T'|T']; [lra|exact T'].
Qed.

(** Summing [cos] of the difference of two sample angles over all bins. *)
Lemma cos_diff_sum (n m l : nat) :
  (m < n)%nat -> (l < n)%nat ->
  sumf n (fun k => cos (angle n m k - angle n l k)) =
  if Nat.eq_dec m l then INR n else 0.
Proof.
  intros Hm Hl.
  assert (Hn : INR n <> 0) by (apply not_0_INR; lia).
  destruct (Nat.eq_dec m l) as [->|Hne].
  - rewrite (sumf_ext n _ (fun _ => 1)).
    + clear. induction n as [|n IH]; [reflexivity|].
      cbn [sumf]. rewrite IH, S_INR. reflexivity.
    + intros k _. rewrite Rminus_diag. apply cos_0.
  - destruct (Nat.lt_ge_cases l m) as [Hlt|Hge].
    + rewrite <- (cos_sum_zero n (m - l)) by lia.
      apply sumf_ext. intros k _. f_equal.
      unfold angle. rewrite minus_INR by lia. field. exact Hn.
    + rewrite <- (cos_sum_zero n (l - m)) by lia.
      apply sumf_ext. intros k _. rewrite <- cos_neg. f_equal.
      unfold angle. rewrite minus_INR by lia. field. exact Hn.
Qed.

End Orthogonality.

(** ** The transform of a real sequence *)

Section Transform.
Local Open Scope R_scope.

Lemma angle_comm (n m k : nat) : angle n m k = angle n k m.
Proof. unfold angle. unfold Rdiv. ring. Qed.

Lemma angle_0_l (n k : nat) : angle n 0 k = 0.
Proof. unfold angle. cbn [INR]. unfold Rdiv. ring. Qed.

Lemma angle_mirror (n m k : nat) :
  (0 < n)%nat -> (k <= n)%nat ->
  angle n m (n - k) = - angle n m k + 2 * INR m * PI.
Proof.
  intros Hn Hk. unfold angle. rewrite minus_INR by exact Hk.
  field. apply not_0_INR. lia.
Qed.

Lemma cos_angle_mirror (n m k : nat) :
  (0 < n)%nat -> (k <= n)%nat -> cos (angle n m (n - k)) = cos (angle n m k).
Proof.
  intros Hn Hk. rewrite angle_mirror by assumption.
  rewrite cos_period, cos_neg. reflexivity.
Qed.

Lemma sin_angle_mirror (n m k : nat) :
  (0 < n)%nat -> (k <= n)%nat -> sin (angle n m (n - k)) = - sin (angle n m k).
Proof.
  intros Hn Hk. rewrite angle_mirror by assumption.
  rewrite sin_period, sin_neg. reflexivity.
Qed.

(** The two parts of [Np.dft_bin] are the sums [dft_re] and [dft_im]. *)
Lemma fold_add_re (l : list Cplx.complex) (z : Cplx.complex) :
  Cplx.re (fold_right Cplx.add z l) =
  Cplx.re (fold_right Cplx.add Cplx.zero l) + Cplx.re z.
Proof.
  induction l as [|w l IH]; cbn [fold_right Cplx.add Cplx.re Cplx.zero].
  - ring.
  - rewrite IH. ring.
Qed.

Lemma fold_add_im (l : list Cplx.complex) (z : Cplx.complex) :
  Cplx.im (fold_right Cplx.add z l) =
  Cplx.im (fold_right Cplx.add Cplx.zero l) + Cplx.im z.
Proof.
  induction l as [|w l IH]; cbn [fold_right Cplx.add Cplx.im Cplx.zero].
  - ring.
  - rewrite IH. ring.
Qed.

Lemma re_sum_seq (g : nat -> Cplx.complex) (n : nat) :
  Cplx.re (fold_right Cplx.add Cplx.zero (map g (seq 0 n))) =
  sumf n (fun m => Cplx.re (g m)).
Proof.
  induction n as [|n IH]; [reflexivity|].
  rewrite seq_S, map_app, fold_right_app, fold_add_re, IH.
  cbn [sumf map fold_right Cplx.add Cplx.re Cplx.zero Nat.add]. ring.
Qed.

Lemma im_sum_seq (g : nat -> Cplx.complex) (n : nat) :
  Cplx.im (fold_right Cplx.add Cplx.zero (map g (seq 0 n))) =
  sumf n (fun m => Cplx.im (g m)).
Proof.
  induction n as [|n IH]; [reflexivity|].
  rewrite seq_S, map_app, fold_right_app, fold_add_im, IH.
  cbn [sumf map fold_right Cplx.add Cplx.im Cplx.zero Nat.add]. ring.
Qed.

Lemma dft_bin_re (a : Np.ndarray) (k : nat) :
  Cplx.re (Np.dft_bin a k) = dft_re a k.
Proof.
  unfold Np.dft_bin, dft_re. rewrite re_sum_seq.
  apply sumf_ext. intros m _.
  cbn [Cplx.scale Cplx.cis Cplx.re]. rewrite cos_neg. reflexivity.
Qed.

Lemma dft_bin_im (a : Np.ndarray) (k : nat) :
  Cplx.im (Np.dft_bin a k) = dft_im a k.
Proof.
  unfold Np.dft_bin, dft_im. rewrite im_sum_seq, <- sumf_opp.
  apply sumf_ext. intros m _.
  cbn [Cplx.scale Cplx.cis Cplx.im]. rewrite sin_neg.
  fold (angle (length a) m k). ring.
Qed.

(** Bins [k] and [n - k] of a real sequence are conjugate. *)
Lemma dft_re_mirror (a : Np.ndarray) (k : nat) :
  (k <= length a)%nat -> a <> [] -> dft_re a (length a - k) = dft_re a k.
Proof.
  intros Hk Ha. unfold dft_re. apply sumf_ext. intros m _.
  rewrite cos_angle_mirror; [reflexivity| |exact Hk].
  destruct a; [contradiction|simpl; lia].
Qed.

Lemma dft_im_mirror (a : Np.ndarray) (k : nat) :
  (k <= length a)%nat -> a <> [] -> dft_im a (length a - k) = - dft_im a k.
Proof.
  intros Hk Ha. unfold dft_im. f_equal. rewrite <- sumf_opp.
  apply sumf_ext. intros m _.
  rewrite sin_angle_mirror; [ring| |exact Hk].
  destruct a; [contradiction|simpl; lia].
Qed.

(** The inverse transform recovers every sample. *)
Lemma dft_inverse (a : Np.ndarray) (l : nat) :
  (l < length a)%nat ->
  sumf (length a) (inv_term a l) = INR (length a) * nth l a 0.
Proof.
  intros Hl. set (n := length a).
  rewrite (sumf_ext n _
             (fun k => sumf n (fun m => nth m a 0 * cos (angle n m k - angle n l k)))).
  - rewrite sumf_swap.
    rewrite (sumf_ext n _
               (fun m => nth m a 0 * (if Nat.eq_dec m l then INR n else 0))).
    + rewrite (sumf_single n l).
      * destruct (Nat.eq_dec l l) as [_|N]; [ring|contradiction N; reflexivity].
      * exact Hl.
      * intros k _ Hk. destruct (Nat.eq_dec k l); [contradiction|ring].
    + intros m Hm. rewrite sumf_scal. f_equal. apply cos_diff_sum; assumption.
  - intros k _. unfold inv_term, dft_re, dft_im. fold n.
    transitivity
      (sumf n (fun m => nth m a 0 * cos (angle n m k)) * cos (angle n l k) +
       sumf n (fun m => nth m a 0 * sin (angle n m k)) * sin (angle n l k));
      [ring|].
    rewrite <- !sumf_scal_r, <- sumf_plus.
    apply sumf_ext. intros m _. rewrite cos_minus. ring.
Qed.

End Transform.

(** ** A real sequence whose retained bins all vanish *)

Section Vanishing.
Local Open Scope R_scope.

Variable a : Np.ndarray.
Hypothesis Hlen : (2 <= length a)%nat.
Hypothesis Hfirst : nth 0 a 0 = 0.
Hypothesis Hlast : nth (length a - 1) a 0 = 0.
Hypothesis Hzero :
  forall k : nat, (k < length a / 2)%nat -> dft_re a k = 0 /\ dft_im a k = 0.

Lemma nonempty_of_len : a <> [].
Proof using Hlen. intros E. rewrite E in Hlen. simpl in Hlen. lia. Qed.

Lemma inv_term_low (l k : nat) :
  (k < length a / 2)%nat -> inv_term a l k = 0.
Proof using Hzero.
  intros Hk. unfold inv_term. destruct (Hzero k Hk) as [-> ->]. ring.
Qed.

Lemma inv_term_high (l k : nat) :
  (length a - length a / 2 < k)%nat -> (k < length a)%nat -> inv_term a l k = 0.
Proof using Hzero Hlen.
  intros Hk Hkn. unfold inv_term.
  replace k with (length a - (length a - k))%nat at 1 3 by lia.
  rewrite dft_re_mirror, dft_im_mirror by (try lia; apply nonempty_of_len).
  destruct (Hzero (length a - k)%nat) as [-> ->]; [lia|]. ring.
Qed.

Lemma sin_nat_PI (m : nat) : sin (INR m * PI) = 0.
Proof. apply sin_eq_0_1. exists (Z.of_nat m). rewrite INR_IZR_INZ. reflexivity. Qed.

Lemma sample_of_inv_term_zero (l : nat) (s : R) :
  INR (length a) * nth l a 0 = s -> s = 0 -> nth l a 0 = 0.
Proof using Hlen.
  intros E Hs. rewrite Hs in E.
  apply Rmult_integral in E. destruct E as [E|E]; [|exact E].
  exfalso. revert E. apply not_0_INR. lia.
Qed.

Lemma vanish_even (h : nat) :
  length a = (2 * h)%nat -> forall l : nat, (l < length a)%nat -> nth l a 0 = 0.
Proof using Hlen Hfirst Hzero.
  intros Hn.
  assert (Hh : (length a / 2 = h)%nat)
    by (rewrite Hn, Nat.mul_comm; apply Nat.div_mul; lia).
  assert (Hone : forall l, (l < length a)%nat ->
                   INR (length a) * nth l a 0 = inv_term a l h).
  { intros l Hl. rewrite <- dft_inverse by exact Hl.
    apply sumf_single; [lia|].
    intros k Hk Hne.
    destruct (Nat.lt_ge_cases k h) as [Hlt|Hge].
    - apply inv_term_low. lia.
    - apply inv_term_high; lia. }
  assert (Him : dft_im a h = 0).
  { unfold dft_im. rewrite sumf_zero; [ring|].
    intros m _. replace (angle (length a) m h) with (INR m * PI).
    - rewrite sin_nat_PI. ring.
    - assert (Hh0 : INR h <> 0) by (apply not_0_INR; lia).
      unfold angle. rewrite Hn, mult_INR. simpl (INR 2).
      field; repeat split; (assumption || lra). }
  assert (Hre : dft_re a h = 0).
  { assert (H0 : (0 < length a)%nat) by lia.
    pose proof (Hone 0%nat H0) as E. rewrite Hfirst in E.
    unfold inv_term in E. rewrite angle_0_l, cos_0, sin_0 in E. lra. }
  intros l Hl. apply (sample_of_inv_term_zero l _ (Hone l Hl)).
  unfold inv_term. rewrite Hre, Him. ring.
Qed.

Lemma vanish_odd (h : nat) :
  length a = (2 * h + 1)%nat -> forall l : nat, (l < length a)%nat -> nth l a 0 = 0.
Proof using Hlen Hfirst Hlast Hzero.
  intros Hn.
  assert (Hh : (length a / 2 = h)%nat).
  { rewrite Hn. rewrite Nat.mul_comm, Nat.div_add_l by lia. simpl. lia. }
  assert (Hne : a <> []) by apply nonempty_of_len.
  assert (Hmir : forall l, inv_term a l (h + 1) = inv_term a l h).
  { intros l. unfold inv_term.
    replace (h + 1)%nat with (length a - h)%nat by lia.
    rewrite dft_re_mirror, dft_im_mirror by (try lia; exact Hne).
    rewrite cos_angle_mirror, sin_angle_mirror by lia. ring. }
  assert (Htwo : forall l, (l < length a)%nat ->
                   INR (length a) * nth l a 0 = 2 * inv_term a l h).
  { intros l Hl. rewrite <- dft_inverse by exact Hl.
    rewrite (sumf_two (length a) h (h + 1)).
    - rewrite Hmir. ring.
    - lia.
    - lia.
    - intros k Hk Hk1 Hk2.
      destruct (Nat.lt_ge_cases k h) as [Hlt|Hge].
      + apply inv_term_low. lia.
      + apply inv_term_high; lia. }
  assert (Hre : dft_re a h = 0).
  { assert (H0 : (0 < length a)%nat) by lia.
    pose proof (Htwo 0%nat H0) as E. rewrite Hfirst in E.
    unfold inv_term in E. rewrite angle_0_l, cos_0, sin_0 in E. lra. }
  assert (Him : dft_im a h = 0).
  { assert (H1 : (length a - 1 < length a)%nat) by lia.
    pose proof (Htwo _ H1) as E. rewrite Hlast in E.
    unfold inv_term in E. rewrite Hre in E.
    rewrite (angle_comm _ (length a - 1) h) in E.
    rewrite sin_angle_mirror in E by lia.
    assert (Hs : 0 < sin (angle (length a) h 1)).
    { assert (Hnpos : 0 < INR (length a)) by (apply lt_0_INR; lia).
      assert (Hhpos : 0 < INR h) by (apply lt_0_INR; lia).
      assert (Hlt : 2 * INR h < INR (length a)).
      { rewrite Hn, plus_INR, mult_INR. simpl (INR 2). simpl (INR 1). lra. }
      pose proof PI_RGT_0 as Hpi.
      unfold angle. simpl (INR 1).
      apply sin_gt_0.
      - apply Rdiv_lt_0_compat; [|exact Hnpos].
        assert (0 < PI * INR h) by (apply Rmult_lt_0_compat; assumption).
        lra.
      - apply (Rmult_lt_reg_r (INR (length a))); [exact Hnpos|].
        unfold Rdiv. rewrite Rmult_assoc, Rinv_l by lra.
        nra. }
    assert (E' : dft_im a h * sin (angle (length a) h 1) = 0) by lra.
    apply Rmult_integral in E'. destruct E' as [E'|E']; [exact E'|lra]. }
  intros l Hl. apply (sample_of_inv_term_zero l _ (Htwo l Hl)).
  unfold inv_term. rewrite Hre, Him. ring.
Qed.

(** With a zero first and last sample, vanishing retained bins force the
    whole sequence to vanish. *)
Lemma dft_half_zero :
  forall l : nat, (l < length a)%nat -> nth l a 0 = 0.
Proof using Hlen Hfirst Hlast Hzero.
  pose proof (Nat.div_mod_eq (length a) 2) as E.
  pose proof (Nat.mod_upper_bound (length a) 2) as B.
  destruct (Nat.eq_dec (length a mod 2) 0) as [E0|E0].
  - apply (vanish_even (length a / 2)). lia.
  - apply (vanish_odd (length a / 2)). lia.
Qed.

End Vanishing.

(** ** [np.max] and the body of [set_dfts] *)

Section Spectrum.
Local Open Scope R_scope.

Lemma fold_max_ge (l : list R) (x : R) :
  x <= fold_left Rmax l x /\ forall y : R, In y l -> y <= fold_left Rmax l x.
Proof.
  revert x. induction l as [|z l IH]; intros x; cbn [fold_left].
  - split; [lra|]. intros y [].
  - destruct (IH (Rmax x z)) as [H1 H2].
    pose proof (Rmax_l x z). pose proof (Rmax_r x z).
    split; [lra|]. intros y [<-|Hy]; [lra|]. apply H2. exact Hy.
Qed.

Lemma fold_max_in (l : list R) (x : R) : In (fold_left Rmax l x) (x :: l).
Proof.
  revert x. induction l as [|z l IH]; intros x; cbn [fold_left].
  - left. reflexivity.
  - destruct (IH (Rmax x z)) as [E|Hin].
    + unfold Rmax in E at 1. destruct (Rle_dec x z).
      * right. left. exact E.
      * left. exact E.
    + right. right. exact Hin.
Qed.

Lemma np_max_spec (l : Np.ndarray) :
  l <> [] ->
  exists p : R, Np.max l = Py.Ok p /\ In p l /\ forall y : R, In y l -> y <= p.
Proof.
  destruct l as [|x l]; [contradiction|]. intros _.
  exists (fold_left Rmax l x). split; [reflexivity|].
  split; [apply fold_max_in|].
  destruct (fold_max_ge l x) as [H1 H2].
  intros y [<-|Hy]; [exact H1|apply H2; exact Hy].
Qed.

Lemma max_unique (l : list R) (p q : R) :
  In p l -> (forall y : R, In y l -> y <= p) ->
  In q l -> (forall y : R, In y l -> y <= q) -> p = q.
Proof.
  intros Hp Hpu Hq Hqu. apply Rle_antisym; [apply Hqu|apply Hpu]; assumption.
Qed.

Lemma length_spectrum (a : Np.ndarray) : length (spectrum a) = (length a / 2)%nat.
Proof. unfold spectrum. rewrite length_map, length_seq. reflexivity. Qed.

Lemma nth_spectrum (a : Np.ndarray) (i : nat) :
  (i < length a / 2)%nat ->
  nth i (spectrum a) 0 = 2 * Cplx.abs (Np.dft_bin a i) / INR (length a).
Proof. intros Hi. unfold spectrum. rewrite nth_map_seq by exact Hi. reflexivity. Qed.

Lemma abs_nonneg (z : Cplx.complex) : 0 <= Cplx.abs z.
Proof. apply sqrt_pos. Qed.

Lemma spectrum_nonneg (a : Np.ndarray) (x : R) : In x (spectrum a) -> 0 <= x.
Proof.
  unfold spectrum. intros Hx. apply in_map_iff in Hx.
  destruct Hx as (k & <- & _).
  pose proof (abs_nonneg (Np.dft_bin a k)) as H.
  pose proof (pos_INR (length a)) as Hn.
  apply Rmult_le_pos; [lra|].
  destruct (Req_dec_T (INR (length a)) 0) as [E|N].
  - rewrite E, Rinv_0. lra.
  - left. apply Rinv_0_lt_compat. lra.
Qed.

(** The first half of [2 * np.abs(np.fft.fft(a)) / len(a)] is [spectrum a]. *)
Lemma half_spectrum_spec (a : Np.ndarray) :
  (2 <= length a)%nat ->
  exists peak : R,
    SimRC.half_spectrum a = Py.Ok (spectrum a, peak) /\
    In peak (spectrum a) /\ forall y : R, In y (spectrum a) -> y <= peak.
Proof.
  intros Hlen.
  assert (Hne : spectrum a <> []).
  { intros E. apply (f_equal (@length R)) in E. rewrite length_spectrum in E.
    change (length (@nil R)) with 0%nat in E.
    apply Nat.div_small_iff in E; lia. }
  destruct (np_max_spec (spectrum a) Hne) as (peak & Hmax & Hin & Hub).
  exists peak. split; [|split; assumption].
  unfold SimRC.half_spectrum, Np.fft.
  destruct a as [|x a']; [simpl in Hlen; lia|].
  set (a := x :: a') in *.
  cbn [Py.bind]. unfold Np.abs.
  rewrite !length_map, length_seq.
  rewrite !firstn_map, firstn_seq by (apply Nat.lt_le_incl, Nat.div_lt; lia).
  rewrite !map_map. fold (spectrum a).
  rewrite Hmax. reflexivity.
Qed.

End Spectrum.

(** ** Dividing a sequence by the impedance divides its spectrum *)

Section Scaling.
Local Open Scope R_scope.

Lemma nth_map0 (g : R -> R) (l : list R) (i : nat) :
  (i < length l)%nat -> nth i (map g l) 0 = g (nth i l 0).
Proof.
  intros Hi. rewrite nth_indep with (d' := g 0) by (rewrite length_map; exact Hi).
  apply map_nth.
Qed.

(** [z] is the impedance [set_I_out] divides by. *)
Variable z : R.

Lemma dft_re_scaled (a : Np.ndarray) (k : nat) :
  dft_re (map (fun v => (- v) / z) a) k = - dft_re a k / z.
Proof.
  unfold dft_re. rewrite length_map.
  rewrite (sumf_ext _ _ (fun m => (- / z) * (nth m a 0 * cos (angle (length a) m k)))).
  - rewrite sumf_scal. unfold Rdiv. ring.
  - intros m Hm. rewrite nth_map0 by exact Hm. unfold Rdiv. ring.
Qed.

Lemma dft_im_scaled (a : Np.ndarray) (k : nat) :
  dft_im (map (fun v => (- v) / z) a) k = - dft_im a k / z.
Proof.
  unfold dft_im. rewrite length_map.
  rewrite (sumf_ext _ _ (fun m => (- / z) * (nth m a 0 * sin (angle (length a) m k)))).
  - rewrite sumf_scal. unfold Rdiv. ring.
  - intros m Hm. rewrite nth_map0 by exact Hm. unfold Rdiv. ring.
Qed.

Hypothesis Hz : 0 < z.

Lemma abs_scaled (a : Np.ndarray) (k : nat) :
  Cplx.abs (Np.dft_bin (map (fun v => (- v) / z) a) k) = Cplx.abs (Np.dft_bin a k) / z.
Proof using Hz.
  unfold Cplx.abs.
  rewrite !dft_bin_re, !dft_bin_im, dft_re_scaled, dft_im_scaled.
  set (r := dft_re a k). set (i := dft_im a k).
  replace (- r / z * (- r / z) + - i / z * (- i / z))
    with ((r * r + i * i) * (/ z * / z)) by (field; lra).
  rewrite sqrt_mult_alt by nra.
  rewrite sqrt_square by (left; apply Rinv_0_lt_compat; exact Hz).
  reflexivity.
Qed.

Lemma spectrum_scaled (a : Np.ndarray) :
  spectrum (map (fun v => (- v) / z) a) = map (fun x => x / z) (spectrum a).
Proof using Hz.
  unfold spectrum. rewrite map_map, length_map.
  apply map_ext. intros k. rewrite abs_scaled. unfold Rdiv. ring.
Qed.

Lemma peak_scaled (l : list R) (p q : R) :
  In p l -> (forall y : R, In y l -> y <= p) ->
  In q (map (fun x => x / z) l) ->
  (forall y : R, In y (map (fun x => x / z) l) -> y <= q) ->
  q = p / z.
Proof using Hz.
  intros Hp Hpu Hq Hqu.
  apply (max_unique (map (fun x => x / z) l)); try assumption.
  - apply (in_map (fun x => x / z)). exact Hp.
  - intros y Hy. apply in_map_iff in Hy. destruct Hy as (y' & <- & Hy').
    apply Rmult_le_compat_r; [left; apply Rinv_0_lt_compat; exact Hz|].
    apply Hpu. exact Hy'.
Qed.

End Scaling.

(** ** The peak of a sampled sine is positive *)

Section Peak.
Local Open Scope R_scope.

Lemma abs_eq_0 (w : Cplx.complex) : Cplx.abs w = 0 -> Cplx.re w = 0 /\ Cplx.im w = 0.
Proof.
  unfold Cplx.abs. intros E. apply sqrt_eq_0 in E; [|nra].
  split; nra.
Qed.

Lemma peak_pos (a : Np.ndarray) (p : R) (l : nat) :
  (2 <= length a)%nat ->
  nth 0 a 0 = 0 -> nth (length a - 1) a 0 = 0 ->
  (l < length a)%nat -> nth l a 0 <> 0 ->
  In p (spectrum a) -> (forall y : R, In y (spectrum a) -> y <= p) ->
  0 < p.
Proof.
  intros Hlen H0 Hlast Hl Hnz Hin Hub.
  destruct (spectrum_nonneg a p Hin) as [Hpos|Hp0]; [exact Hpos|].
  exfalso. apply Hnz.
  apply (dft_half_zero a Hlen H0 Hlast); [|exact Hl].
  intros k Hk.
  rewrite <- dft_bin_re, <- dft_bin_im. apply abs_eq_0.
  assert (Hk' : In (nth k (spectrum a) 0) (spectrum a))
    by (apply nth_In; rewrite length_spectrum; exact Hk).
  pose proof (Hub _ Hk') as Hle. pose proof (spectrum_nonneg a _ Hk') as Hge.
  rewrite nth_spectrum in Hle, Hge by exact Hk.
  assert (Hn : 0 < INR (length a)) by (apply lt_0_INR; lia).
  assert (E : 2 * Cplx.abs (Np.dft_bin a k) / INR (length a) = 0) by lra.
  unfold Rdiv in E. apply Rmult_integral in E. destruct E as [E|E]; [lra|].
  pose proof (Rinv_0_lt_compat _ Hn). lra.
Qed.

End Peak.

(** ** The samples [set_V_in] produces *)

Section Samples.
Local Open Scope R_scope.

Variable self : SimRC.state.
Hypothesis Hvalid : SimRC.valid self = true.

Variable n : nat.
Variable ts : Np.ndarray.
Hypothesis Hrange :
  (Z.of_nat n = 100 * SimRC.cycle_num self \/
   Z.of_nat n = 100 * SimRC.cycle_num self - 1)%Z.
Hypothesis Hlen : length ts = n.
Hypothesis Hts :
  forall i : nat, (i < n)%nat ->
    nth i ts 0 =
    INR i * (IZR (SimRC.cycle_num self) / IZR (SimRC.freq self) / INR (n - 1)).

Lemma samples_count : (99 <= n)%nat.
Proof.
  destruct (valid_bounds self Hvalid) as (_ & Hc & _ & _).
  clear Hlen Hts. lia.
Qed.

Lemma samples_span :
  INR (n - 1) = 100 * IZR (SimRC.cycle_num self) - 1 \/
  INR (n - 1) = 100 * IZR (SimRC.cycle_num self) - 2.
Proof.
  pose proof samples_count as Hn.
  rewrite minus_INR by lia. rewrite INR_IZR_INZ. simpl (INR 1).
  destruct Hrange as [E|E]; rewrite E.
  - left. rewrite mult_IZR. reflexivity.
  - right. rewrite minus_IZR, mult_IZR. lra.
Qed.

Lemma samples_nth (i : nat) :
  (i < n)%nat ->
  nth i (map (SimRC.sample self) ts) 0 =
  SimRC.amp *
  sin (2 * PI * IZR (SimRC.cycle_num self) * INR i / INR (n - 1)).
Proof.
  intros Hi. destruct (valid_bounds self Hvalid) as (Hf & Hc & _ & _).
  rewrite nth_map0 by (rewrite Hlen; exact Hi).
  rewrite Hts by exact Hi. unfold SimRC.sample. do 2 f_equal.
  assert (Hf0 : IZR (SimRC.freq self) <> 0) by (apply IZR_pos_neq_0; lia).
  assert (Hn0 : INR (n - 1) <> 0)
    by (apply not_0_INR; pose proof samples_count; lia).
  field. split; assumption.
Qed.

Lemma samples_first : nth 0 (map (SimRC.sample self) ts) 0 = 0.
Proof.
  pose proof samples_count as Hn.
  rewrite samples_nth by lia. cbn [INR].
  replace (2 * PI * IZR (SimRC.cycle_num self) * 0 / INR (n - 1)) with 0
    by (unfold Rdiv; ring).
  rewrite sin_0. ring.
Qed.

Lemma samples_last : nth (n - 1) (map (SimRC.sample self) ts) 0 = 0.
Proof.
  pose proof samples_count as Hn.
  destruct (valid_bounds self Hvalid) as (_ & Hc & _ & _).
  rewrite samples_nth by lia.
  assert (Hn0 : INR (n - 1) <> 0) by (apply not_0_INR; lia).
  replace (2 * PI * IZR (SimRC.cycle_num self) * INR (n - 1) / INR (n - 1))
    with (0 + 2 * INR (Z.to_nat (SimRC.cycle_num self)) * PI).
  - rewrite sin_period, sin_0. ring.
  - rewrite INR_IZR_INZ, Z2Nat.id by lia. field. exact Hn0.
Qed.

Lemma samples_second : 0 < nth 1 (map (SimRC.sample self) ts) 0.
Proof.
  pose proof samples_count as Hn.
  destruct (valid_bounds self Hvalid) as (_ & Hc & _ & _).
  rewrite samples_nth by lia. simpl (INR 1).
  assert (Hc1 : 1 <= IZR (SimRC.cycle_num self)) by (apply IZR_le; lia).
  assert (Hspan : 2 * IZR (SimRC.cycle_num self) < INR (n - 1))
    by (destruct samples_span as [E|E]; rewrite E; lra).
  pose proof PI_RGT_0 as Hpi.
  assert (Hd : 0 < INR (n - 1)) by lra.
  apply Rmult_lt_0_compat; [unfold SimRC.amp; lra|].
  apply sin_gt_0.
  - apply Rdiv_lt_0_compat; [|exact Hd].
    assert (0 < PI * IZR (SimRC.cycle_num self)) by (apply Rmult_lt_0_compat; lra).
    lra.
  - apply (Rmult_lt_reg_r (INR (n - 1))); [exact Hd|].
    unfold Rdiv. rewrite Rmult_assoc, Rinv_l by lra.
    nra.
Qed.

End Samples.

(** ** One full recomputation on valid parameters *)

Section Pipeline.
Local Open Scope R_scope.

Lemma true_divide_finite (a b : R) : b <> 0 -> Np.true_divide a b = Np.Finite (a / b).
Proof.
  intros Hb. unfold Np.true_divide.
  destruct (Req_dec_T b 0) as [E|_]; [contradiction|reflexivity].
Qed.

(** Every step of the recomputation, on valid parameters. *)
Lemma compare_steps (self : SimRC.state) :
  SimRC.valid self = true ->
  exists (n : nat) (ts : Np.ndarray) (p : R),
    let z := impedance self in
    let V := map (SimRC.sample self) ts in
    let I := map (fun v => (- v) / z) V in
    let s1 := SimRC.with_Z self z in
    let s2 := SimRC.with_t_V_in s1 ts V in
    let s3 := SimRC.with_I_out s2 I in
    (SimRC.samp_num (SimRC.cycle_num self) (SimRC.freq self) = Py.Ok (Z.of_nat n) /\
     (Z.of_nat n = 100 * SimRC.cycle_num self \/
      Z.of_nat n = 100 * SimRC.cycle_num self - 1)%Z /\
     length ts = n /\
     (forall i : nat, (i < n)%nat ->
        nth i ts 0 =
        INR i * (IZR (SimRC.cycle_num self) / IZR (SimRC.freq self) / INR (n - 1)))) /\
    (0 < z /\ 0 < p /\ In p (spectrum V) /\
     (forall y : R, In y (spectrum V) -> y <= p)) /\
    SimRC.set_Z self = Py.Ok s1 /\
    SimRC.set_V_in s1 = Py.Ok s2 /\
    SimRC.set_I_out s2 = Py.Ok s3 /\
    SimRC.half_spectrum V = Py.Ok (spectrum V, p) /\
    SimRC.half_spectrum I = Py.Ok (spectrum I, p / z) /\
    SimRC.set_dfts s3 = Py.Ok (compared self ts p).
Proof.
  intros Hv. destruct (valid_bounds self Hv) as (Hf & Hc & Hr & Hn).
  destruct (set_V_in_spec self Hv) as (n & ts & Hsamp & Hrange & HV & Hlen & Hts).
  set (z := impedance self).
  set (V := map (SimRC.sample self) ts).
  set (I := map (fun v => (- v) / z) V).
  assert (Hz : 0 < z) by (apply impedance_pos; lia).
  assert (Hn99 : (99 <= n)%nat) by (apply (samples_count self Hv n Hrange)).
  assert (HlenV : length V = n) by (unfold V; rewrite length_map; exact Hlen).
  assert (HlenV2 : (2 <= length V)%nat) by lia.
  assert (HlenI2 : (2 <= length I)%nat) by (unfold I; rewrite length_map; lia).
  destruct (half_spectrum_spec V HlenV2) as (p & HhV & HpIn & HpUb).
  destruct (half_spectrum_spec I HlenI2) as (q & HhI & HqIn & HqUb).
  assert (Hp : 0 < p).
  { apply (peak_pos V p 1); try assumption; try lia.
    - apply (samples_first self Hv n ts Hrange Hlen Hts).
    - rewrite HlenV. apply (samples_last self Hv n ts Hrange Hlen Hts).
    - pose proof (samples_second self Hv n ts Hrange Hlen Hts) as H1.
      fold V in H1. lra. }
  assert (Hq : q = p / z).
  { unfold I in HqIn, HqUb. rewrite (spectrum_scaled z Hz) in HqIn, HqUb.
    apply (peak_scaled z Hz (spectrum V)); assumption. }
  subst q.
  exists n, ts, p. cbv zeta. fold z V I.
  split; [repeat split; assumption|].
  split; [repeat split; assumption|].
  split; [apply set_Z_spec; lia|].
  split.
  { change (SimRC.set_V_in (SimRC.with_Z self z))
      with (d <- Py.truediv (IZR (SimRC.cycle_num self)) (IZR (SimRC.freq self)) ;;
            n <- SimRC.samp_num (SimRC.cycle_num self) (SimRC.freq self) ;;
            ts <- Np.linspace 0 d n ;;
            Py.Ok (SimRC.with_t_V_in (SimRC.with_Z self z) ts
                     (map (SimRC.sample self) ts)))%py.
    unfold SimRC.set_V_in in HV.
    destruct (Py.truediv (IZR (SimRC.cycle_num self)) (IZR (SimRC.freq self)))
      as [d|e]; [|discriminate HV].
    cbn [Py.bind] in HV |- *.
    destruct (SimRC.samp_num (SimRC.cycle_num self) (SimRC.freq self))
      as [m|e]; [|discriminate HV].
    cbn [Py.bind] in HV |- *.
    destruct (Np.linspace 0 d m) as [ts'|e]; [|discriminate HV].
    cbn [Py.bind] in HV |- *.
    assert (Ets : ts' = ts) by (injection HV; intros; assumption).
    subst ts'. reflexivity. }
  split; [reflexivity|].
  split; [exact HhV|]. split; [exact HhI|].
  unfold SimRC.set_dfts.
  cbn [SimRC.V_in SimRC.I_out SimRC.with_t_V_in SimRC.with_Z SimRC.with_I_out].
  fold V. fold I. rewrite HhV, HhI. cbn [Py.bind fst snd].
  rewrite true_divide_finite
    by (apply Rgt_not_eq; apply Rdiv_lt_0_compat; assumption).
  unfold compared. fold z V I.
  replace (p / (p / z)) with z by (field; lra).
  reflexivity.
Qed.

Lemma compare_spec (self : SimRC.state) :
  SimRC.valid self = true ->
  exists (n : nat) (ts : Np.ndarray) (p : R),
    (Z.of_nat n = 100 * SimRC.cycle_num self \/
     Z.of_nat n = 100 * SimRC.cycle_num self - 1)%Z /\
    length ts = n /\
    0 < impedance self /\ 0 < p /\
    SimRC.compare self = Py.Ok (compared self ts p).
Proof.
  intros Hv.
  destruct (compare_steps self Hv)
    as (n & ts & p & (_ & Hrange & Hlen & _) & (Hz & Hp & _) & H1 & H2 & H3 & _ & _ & H4).
  cbv zeta in *.
  exists n, ts, p. repeat (split; [assumption|]).
  unfold SimRC.compare.
  rewrite H1. cbn [Py.bind]. rewrite H2. cbn [Py.bind].
  rewrite H3. cbn [Py.bind]. exact H4.
Qed.

End Pipeline.

(** ** When the recomputation completes and when it raises *)

Section Failures.
Local Open Scope R_scope.

Lemma set_V_in_unfold (self : SimRC.state) (n : Z) :
  SimRC.freq self <> 0%Z ->
  SimRC.samp_num (SimRC.cycle_num self) (SimRC.freq self) = Py.Ok n ->
  SimRC.set_V_in self =
  (ts <- Np.linspace 0 (IZR (SimRC.cycle_num self) / IZR (SimRC.freq self)) n ;;
   Py.Ok (SimRC.with_t_V_in self ts (map (SimRC.sample self) ts)))%py.
Proof.
  intros Hf Hn. unfold SimRC.set_V_in.
  rewrite truediv_ok by (intros E; apply eq_IZR_R0 in E; contradiction).
  cbn [Py.bind]. rewrite Hn. reflexivity.
Qed.

(** Fewer than two samples: numpy raises [ValueError]. *)
Lemma compare_value_error (self : SimRC.state) (n : Z) :
  SimRC.freq self <> 0%Z -> SimRC.nC self <> 0%Z ->
  SimRC.samp_num (SimRC.cycle_num self) (SimRC.freq self) = Py.Ok n ->
  (n < 2)%Z ->
  SimRC.compare self = Py.Raise Py.ValueError.
Proof.
  intros Hf Hc Hn Hn2. unfold SimRC.compare.
  rewrite set_Z_spec by assumption. cbn [Py.bind].
  rewrite (set_V_in_unfold _ n) by assumption.
  unfold Np.linspace.
  destruct (Z.ltb_spec n 0) as [Hneg|Hpos]; [reflexivity|].
  assert (Hcases : n = 0%Z \/ n = 1%Z) by lia.
  destruct Hcases as [-> | ->]; reflexivity.
Qed.

(** Zero frequency or capacitance: Python raises [ZeroDivisionError]. *)
Lemma compare_zero_division (self : SimRC.state) :
  SimRC.freq self = 0%Z \/ SimRC.nC self = 0%Z ->
  SimRC.compare self = Py.Raise Py.ZeroDivisionError.
Proof.
  intros H. unfold SimRC.compare. rewrite set_Z_zero_division by exact H.
  reflexivity.
Qed.

(** *** Division by a zero [Z] *)

Lemma all_finite_map (l : Np.ndarray) :
  Wide.all_finite (map Np.Finite l) = Some l.
Proof.
  induction l as [|x r IH]; [reflexivity|].
  cbn [map Wide.all_finite]. rewrite IH. reflexivity.
Qed.

Lemma divide_finite (a : Np.ndarray) (z : R) :
  z <> 0 -> Wide.divide a z = map Np.Finite (map (fun v => v / z) a).
Proof.
  intros Hz. unfold Wide.divide. rewrite map_map. apply map_ext.
  intros v. apply true_divide_finite. exact Hz.
Qed.

(** With a non-zero [Z] nothing stops being a number, and the values are
    those [set_I_out] and [set_dfts] store. *)
Lemma derive_and_estimate_finite (self : SimRC.state) :
  SimRC.Z self <> 0 ->
  Wide.derive_and_estimate self =
  (s3 <- SimRC.set_I_out self ;;
   s4 <- SimRC.set_dfts s3 ;;
   Py.Ok (Some (Wide.mkOutcome (map Np.Finite (SimRC.I_out s4)) (SimRC.V_amp s4)
                  (Np.Finite (SimRC.I_amp s4)) (SimRC.Z_calc s4))))%py.
Proof.
  intros Hz. unfold Wide.derive_and_estimate, SimRC.set_I_out, SimRC.set_dfts.
  cbn [Py.bind SimRC.V_in SimRC.I_out SimRC.with_I_out].
  rewrite (divide_finite _ _ Hz).
  rewrite (map_map Ropp (fun v => v / SimRC.Z self)).
  destruct (SimRC.half_spectrum (SimRC.V_in self)) as [[vd vp]|e]; [|reflexivity].
  cbn [Py.bind]. unfold Wide.half_spectrum. rewrite all_finite_map.
  destruct (SimRC.half_spectrum (map (fun v => - v / SimRC.Z self) (SimRC.V_in self)))
    as [[id ip]|e]; reflexivity.
Qed.

(** A NaN in first place makes the whole spectrum and its peak NaN. *)
Lemma half_spectrum_nan (r : Wide.warray) :
  (1 <= length r)%nat ->
  Wide.half_spectrum (Np.NaN :: r) =
  Py.Ok (Some (repeat Np.NaN (length (Np.NaN :: r) / 2), Np.NaN)).
Proof.
  intros Hr. unfold Wide.half_spectrum. cbn [Wide.all_finite].
  destruct (Nat.ltb_spec (length (Np.NaN :: r)) 2) as [Hlt|_].
  - cbn [length] in Hlt. lia.
  - reflexivity.
Qed.

(** While [Z] is [0], assigning [cycle_num] on valid parameters raises
    nothing and leaves NaN as current peak and as empirical impedance: the
    first voltage sample is [0], and [-0 / 0] is NaN. *)
Lemma on_cycle_num_zero_Z (self : SimRC.state) :
  SimRC.valid self = true -> SimRC.Z self = 0 ->
  exists (I : Wide.warray) (p : R),
    0 < p /\
    Wide.on_cycle_num self = Py.Ok (Some (Wide.mkOutcome I p Np.NaN Np.NaN)).
Proof.
  intros Hv HZ.
  destruct (set_V_in_spec self Hv) as (n & ts & _ & Hrange & HV & Hlen & Hts).
  pose proof (samples_count self Hv n Hrange) as Hn99.
  pose proof (samples_first self Hv n ts Hrange Hlen Hts) as H0.
  pose proof (samples_last self Hv n ts Hrange Hlen Hts) as Hlast.
  pose proof (samples_second self Hv n ts Hrange Hlen Hts) as H1.
  set (V := map (SimRC.sample self) ts) in *.
  assert (HlenV : length V = n) by (unfold V; rewrite length_map; exact Hlen).
  destruct (half_spectrum_spec V) as (p & HhV & HpIn & HpUb); [lia|].
  assert (Hp : 0 < p).
  { apply (peak_pos V p 1); try assumption; try lia.
    - rewrite HlenV. exact Hlast.
    - lra. }
  unfold Wide.on_cycle_num. rewrite HV. cbn [Py.bind].
  unfold Wide.derive_and_estimate.
  cbn [SimRC.V_in SimRC.Z SimRC.with_t_V_in]. fold V. rewrite HZ, HhV.
  cbn [Py.bind snd].
  destruct V as [|v0 V']; [simpl in HlenV; lia|].
  cbn [nth] in H0. subst v0.
  assert (E : Wide.divide (map Ropp (0 :: V')) 0
              = Np.NaN :: Wide.divide (map Ropp V') 0).
  { unfold Wide.divide. cbn [map]. f_equal. unfold Np.true_divide.
    destruct (Req_dec_T 0 0) as [_|N]; [|contradiction N; reflexivity].
    destruct (Req_dec_T (- 0) 0) as [_|N]; [reflexivity|contradiction N; ring]. }
  rewrite E.
  rewrite half_spectrum_nan
    by (unfold Wide.divide; rewrite !length_map; simpl in HlenV; lia).
  cbn [Py.bind option_map snd Wide.divide_by].
  eexists. exists p. split; [exact Hp|reflexivity].
Qed.

End Failures.

(** * The properties the specification states *)

Section Properties.
Local Open Scope R_scope.

(** C1: for every valid parameter set, [set_Z] stores the impedance
    [sqrt(R^2 + X^2)], with the reactance [X = 1/(freq * C)] (no [2 pi]
    factor) and [C = nC * 1e-8] farads (the literal [10e-9]). *)
Theorem C1_theoretical_impedance (self : SimRC.state) :
  SimRC.valid self = true ->
  exists s' : SimRC.state,
    SimRC.set_Z self = Py.Ok s' /\
    let C := IZR (SimRC.nC self) * 1e-8 in
    let X := 1 / (IZR (SimRC.freq self) * C) in
    SimRC.Z s' = sqrt (IZR (SimRC.R self) ^ 2 + X ^ 2).
Proof.
  intros Hv. destruct (valid_bounds self Hv) as (Hf & _ & _ & Hn).
  eexists. split; [apply set_Z_spec; lia|].
  reflexivity.
Qed.

(** The class defaults are a valid parameter set. *)
Lemma C1_theoretical_impedance_witness :
  SimRC.valid SimRC.init = true /\
  exists s' : SimRC.state,
    SimRC.set_Z SimRC.init = Py.Ok s' /\
    SimRC.Z s' = sqrt (IZR 1 ^ 2 + (1 / (IZR 1 * (IZR 1 * 1e-8))) ^ 2).
Proof.
  split; [reflexivity|].
  exact (C1_theoretical_impedance SimRC.init eq_refl).
Defined.

(** C2: for every valid parameter set, in exact real arithmetic the
    empirical impedance equals the theoretical one: the currents are the
    voltages times [-1/Z], every current amplitude is the voltage amplitude
    of the same bin divided by [Z], the current peak is the voltage peak
    divided by [Z], and their ratio is [Z]. *)
Theorem C2_empirical_equals_theoretical (self : SimRC.state) :
  SimRC.valid self = true ->
  exists s1 s' : SimRC.state,
    SimRC.set_Z self = Py.Ok s1 /\
    SimRC.compare self = Py.Ok s' /\
    SimRC.Z s' = SimRC.Z s1 /\
    SimRC.I_out s' = map (fun v => - v / SimRC.Z s') (SimRC.V_in s') /\
    length (SimRC.I_dft s') = length (SimRC.V_dft s') /\
    (forall k : nat, (k < length (SimRC.V_dft s'))%nat ->
       nth k (SimRC.I_dft s') 0 = nth k (SimRC.V_dft s') 0 / SimRC.Z s') /\
    SimRC.V_amp s' <> 0 /\
    SimRC.I_amp s' = SimRC.V_amp s' / SimRC.Z s' /\
    SimRC.Z_calc s' = Np.Finite (SimRC.V_amp s' / SimRC.I_amp s') /\
    SimRC.Z_calc s' = Np.Finite (SimRC.Z s').
Proof.
  intros Hv. destruct (valid_bounds self Hv) as (Hf & _ & _ & Hn).
  destruct (compare_spec self Hv) as (n & ts & p & _ & _ & Hz & Hp & Hcmp).
  exists (SimRC.with_Z self (impedance self)), (compared self ts p).
  split; [apply set_Z_spec; lia|]. split; [exact Hcmp|].
  unfold compared.
  cbn [SimRC.Z SimRC.I_out SimRC.V_in SimRC.I_dft SimRC.V_dft SimRC.V_amp
       SimRC.I_amp SimRC.Z_calc SimRC.with_dfts SimRC.with_I_out
       SimRC.with_t_V_in SimRC.with_Z].
  set (z := impedance self) in *.
  set (V := map (SimRC.sample self) ts).
  split; [reflexivity|]. split; [reflexivity|].
  rewrite (spectrum_scaled z Hz V).
  split; [apply length_map|].
  split; [intros k Hk; apply (nth_map0 (fun x => x / z)); exact Hk|].
  split; [lra|]. split; [reflexivity|].
  split; [|reflexivity].
  f_equal. field. split; lra.
Qed.

(** At the class defaults. *)
Lemma C2_empirical_equals_theoretical_witness :
  SimRC.valid SimRC.init = true /\
  exists s1 s' : SimRC.state,
    SimRC.set_Z SimRC.init = Py.Ok s1 /\
    SimRC.compare SimRC.init = Py.Ok s' /\
    SimRC.Z s' = SimRC.Z s1 /\
    SimRC.I_out s' = map (fun v => - v / SimRC.Z s') (SimRC.V_in s') /\
    length (SimRC.I_dft s') = length (SimRC.V_dft s') /\
    (forall k : nat, (k < length (SimRC.V_dft s'))%nat ->
       nth k (SimRC.I_dft s') 0 = nth k (SimRC.V_dft s') 0 / SimRC.Z s') /\
    SimRC.V_amp s' <> 0 /\
    SimRC.I_amp s' = SimRC.V_amp s' / SimRC.Z s' /\
    SimRC.Z_calc s' = Np.Finite (SimRC.V_amp s' / SimRC.I_amp s') /\
    SimRC.Z_calc s' = Np.Finite (SimRC.Z s').
Proof.
  split; [reflexivity|].
  exact (C2_empirical_equals_theoretical SimRC.init eq_refl).
Defined.

(** C3: for every valid parameter set, [set_V_in] produces times and
    voltages of one length, at least 2; the times are evenly spaced and
    strictly increasing from 0 to [cycle_num / freq], both endpoints
    included; and every voltage is [amp * sin(2 pi freq t)], with
    [amp = 3.3 / 2]. *)
Theorem C3_synthesize_voltage (self : SimRC.state) :
  SimRC.valid self = true ->
  exists (s' : SimRC.state) (n : nat),
    SimRC.set_V_in self = Py.Ok s' /\
    length (SimRC.t s') = n /\ length (SimRC.V_in s') = n /\ (2 <= n)%nat /\
    nth 0 (SimRC.t s') 0 = 0 /\
    nth (n - 1) (SimRC.t s') 0 = IZR (SimRC.cycle_num self) / IZR (SimRC.freq self) /\
    (forall i : nat, (S i < n)%nat ->
       nth (S i) (SimRC.t s') 0 - nth i (SimRC.t s') 0 =
       IZR (SimRC.cycle_num self) / IZR (SimRC.freq self) / INR (n - 1)) /\
    (forall i : nat, (S i < n)%nat -> nth i (SimRC.t s') 0 < nth (S i) (SimRC.t s') 0) /\
    (forall i : nat, (i < n)%nat ->
       nth i (SimRC.V_in s') 0 =
       SimRC.amp * sin (2 * PI * IZR (SimRC.freq self) * nth i (SimRC.t s') 0)) /\
    SimRC.amp = 3.3 / 2.
Proof.
  intros Hv. destruct (valid_bounds self Hv) as (Hf & Hc & _ & _).
  destruct (set_V_in_spec self Hv) as (n & ts & _ & Hrange & HV & Hlen & Hts).
  assert (Hn : (99 <= n)%nat) by lia.
  assert (Hd : 0 < INR (n - 1)) by (apply lt_0_INR; lia).
  assert (Hf0 : 0 < IZR (SimRC.freq self)) by (apply IZR_pos_gt_0; lia).
  assert (Hc0 : 0 < IZR (SimRC.cycle_num self)) by (apply IZR_pos_gt_0; lia).
  set (step := IZR (SimRC.cycle_num self) / IZR (SimRC.freq self) / INR (n - 1)) in *.
  assert (Hstep : 0 < step)
    by (unfold step; repeat apply Rdiv_lt_0_compat; assumption).
  exists (SimRC.with_t_V_in self ts (map (SimRC.sample self) ts)), n.
  cbn [SimRC.t SimRC.V_in SimRC.with_t_V_in].
  split; [exact HV|]. split; [exact Hlen|].
  split; [rewrite length_map; exact Hlen|]. split; [lia|].
  split; [rewrite Hts by lia; cbn [INR]; ring|].
  split; [rewrite Hts by lia; unfold step; field; lra|].
  split; [intros i Hi; rewrite !Hts by lia; rewrite S_INR; fold step; ring|].
  split; [intros i Hi; rewrite !Hts by lia; rewrite S_INR; lra|].
  split; [|reflexivity].
  intros i Hi. rewrite nth_map0 by (rewrite Hlen; exact Hi).
  unfold SimRC.sample. do 2 f_equal. ring.
Qed.

(** At the class defaults: one cycle at 1 Hz. *)
Lemma C3_synthesize_voltage_witness :
  SimRC.valid SimRC.init = true /\
  exists (s' : SimRC.state) (n : nat),
    SimRC.set_V_in SimRC.init = Py.Ok s' /\
    length (SimRC.t s') = n /\ length (SimRC.V_in s') = n /\ (2 <= n)%nat /\
    nth 0 (SimRC.t s') 0 = 0 /\
    nth (n - 1) (SimRC.t s') 0 = IZR 1 / IZR 1 /\
    (forall i : nat, (S i < n)%nat ->
       nth (S i) (SimRC.t s') 0 - nth i (SimRC.t s') 0 = IZR 1 / IZR 1 / INR (n - 1)) /\
    (forall i : nat, (S i < n)%nat -> nth i (SimRC.t s') 0 < nth (S i) (SimRC.t s') 0) /\
    (forall i : nat, (i < n)%nat ->
       nth i (SimRC.V_in s') 0 =
       SimRC.amp * sin (2 * PI * IZR 1 * nth i (SimRC.t s') 0)) /\
    SimRC.amp = 3.3 / 2.
Proof.
  split; [reflexivity|].
  exact (C3_synthesize_voltage SimRC.init eq_refl).
Defined.

(** C4, on the code: at [freq = 49], [cycle_num = 1] the binary64 product
    [(1/49) * 4900] is just below 100 and [int] truncates it, so [set_V_in]
    produces 99 samples, not [cycle_num * 100]; at [freq = 1000],
    [cycle_num = 2] the count is 200; and 6385 of the 100000 valid pairs
    [(cycle_num, freq)] lose a sample this way. *)
Theorem C4_sample_count_at_49 :
  SimRC.samp_num 1 49 = Py.Ok 99%Z /\
  SimRC.samp_num 2 1000 = Py.Ok 200%Z /\
  short_pairs SimRC.samp_num = 6385%nat /\
  exists s' : SimRC.state,
    SimRC.set_V_in (SimRC.with_params SimRC.init 49 1 1 1) = Py.Ok s' /\
    length (SimRC.t s') = 99%nat /\ length (SimRC.V_in s') = 99%nat.
Proof.
  assert (E49 : SimRC.samp_num 1 49 = Py.Ok 99%Z) by (vm_compute; reflexivity).
  split; [exact E49|]. split; [vm_compute; reflexivity|].
  split; [exact short_pairs_count|].
  destruct (set_V_in_spec (SimRC.with_params SimRC.init 49 1 1 1) eq_refl)
    as (n & ts & Hsamp & _ & HV & Hlen & _).
  cbn [SimRC.with_params SimRC.cycle_num SimRC.freq] in Hsamp.
  rewrite E49 in Hsamp. injection Hsamp as Hn.
  assert (E : n = 99%nat) by lia. rewrite E in Hlen.
  eexists. split; [exact HV|].
  cbn [SimRC.t SimRC.V_in SimRC.with_t_V_in]. rewrite length_map. split; exact Hlen.
Qed.

(** C5: for every series of length [N >= 2], the body of [set_dfts] returns
    a spectrum of length [N / 2] whose [i]-th entry is [2 / N] times the
    magnitude of bin [i] of the transform of the whole series, hence
    non-negative, and as peak the largest retained entry. *)
Theorem C5_estimate_spectrum (a : Np.ndarray) :
  (2 <= length a)%nat ->
  exists (X : list Cplx.complex) (amplitudes : Np.ndarray) (peak : R),
    Np.fft a = Py.Ok X /\ length X = length a /\
    SimRC.half_spectrum a = Py.Ok (amplitudes, peak) /\
    length amplitudes = (length a / 2)%nat /\
    (forall i : nat, (i < length a / 2)%nat ->
       nth i amplitudes 0 =
       2 / INR (length a) * Cplx.abs (nth i X Cplx.zero)) /\
    (forall x : R, In x amplitudes -> 0 <= x) /\
    In peak amplitudes /\
    (forall x : R, In x amplitudes -> x <= peak).
Proof.
  intros Hlen.
  destruct (half_spectrum_spec a Hlen) as (peak & Hh & Hin & Hub).
  exists (map (Np.dft_bin a) (seq 0 (length a))), (spectrum a), peak.
  split; [destruct a; [simpl in Hlen; lia|reflexivity]|].
  split; [rewrite length_map, length_seq; reflexivity|].
  split; [exact Hh|]. split; [apply length_spectrum|].
  split.
  - intros i Hi. rewrite nth_spectrum by exact Hi.
    rewrite nth_map_seq
      by (apply Nat.lt_le_trans with (length a / 2)%nat;
          [exact Hi|apply Nat.lt_le_incl, Nat.div_lt; lia]).
    unfold Rdiv. ring.
  - split; [apply spectrum_nonneg|]. split; assumption.
Qed.

(** On the two samples [1; 0]. *)
Lemma C5_estimate_spectrum_witness :
  (2 <= length [1; 0])%nat /\
  exists (X : list Cplx.complex) (amplitudes : Np.ndarray) (peak : R),
    Np.fft [1; 0] = Py.Ok X /\ length X = length [1; 0] /\
    SimRC.half_spectrum [1; 0] = Py.Ok (amplitudes, peak) /\
    length amplitudes = (length [1; 0] / 2)%nat /\
    (forall i : nat, (i < length [1; 0] / 2)%nat ->
       nth i amplitudes 0 =
       2 / INR (length [1; 0]) * Cplx.abs (nth i X Cplx.zero)) /\
    (forall x : R, In x amplitudes -> 0 <= x) /\
    In peak amplitudes /\
    (forall x : R, In x amplitudes -> x <= peak).
Proof.
  split; [simpl; lia|].
  apply (C5_estimate_spectrum [1; 0]). simpl. lia.
Defined.

(** C6: for every non-empty voltage sequence and every impedance [Z > 0],
    [set_I_out] stores a current sequence of the same length with
    [I_out[i] = - V_in[i] / Z], and leaves [V_in] as it was. *)
Theorem C6_derive_current (self : SimRC.state) :
  SimRC.V_in self <> [] -> 0 < SimRC.Z self ->
  exists s' : SimRC.state,
    SimRC.set_I_out self = Py.Ok s' /\
    length (SimRC.I_out s') = length (SimRC.V_in self) /\
    (forall i : nat, (i < length (SimRC.V_in self))%nat ->
       nth i (SimRC.I_out s') 0 = - nth i (SimRC.V_in self) 0 / SimRC.Z self) /\
    SimRC.V_in s' = SimRC.V_in self.
Proof.
  intros _ _. eexists. split; [reflexivity|].
  cbn [SimRC.I_out SimRC.V_in SimRC.with_I_out].
  split; [apply length_map|]. split; [|reflexivity].
  intros i Hi. rewrite nth_map0 by exact Hi. reflexivity.
Qed.

(** On the class defaults with [Z = 2]: one voltage sample. *)
Lemma C6_derive_current_witness :
  (SimRC.V_in (SimRC.with_Z SimRC.init 2) <> [] /\
   0 < SimRC.Z (SimRC.with_Z SimRC.init 2)) /\
  exists s' : SimRC.state,
    SimRC.set_I_out (SimRC.with_Z SimRC.init 2) = Py.Ok s' /\
    length (SimRC.I_out s') = length (SimRC.V_in (SimRC.with_Z SimRC.init 2)) /\
    (forall i : nat, (i < length (SimRC.V_in (SimRC.with_Z SimRC.init 2)))%nat ->
       nth i (SimRC.I_out s') 0 =
       - nth i (SimRC.V_in (SimRC.with_Z SimRC.init 2)) 0
         / SimRC.Z (SimRC.with_Z SimRC.init 2)) /\
    SimRC.V_in s' = SimRC.V_in (SimRC.with_Z SimRC.init 2).
Proof.
  assert (Hne : SimRC.V_in (SimRC.with_Z SimRC.init 2) <> []) by (simpl; discriminate).
  assert (Hz : 0 < SimRC.Z (SimRC.with_Z SimRC.init 2)) by (simpl; lra).
  split; [split; assumption|].
  exact (C6_derive_current (SimRC.with_Z SimRC.init 2) Hne Hz).
Defined.

(** C7: for every valid parameter set, one recomputation runs [set_Z],
    [set_V_in] and [set_I_out] in this order and then stores as empirical
    impedance the ratio of the peak amplitude of the synthesized voltages to
    the peak amplitude of the derived currents. *)
Theorem C7_empirical_is_peak_ratio (self : SimRC.state) :
  SimRC.valid self = true ->
  exists (s1 s2 s3 s4 : SimRC.state) (vdft idft : Np.ndarray) (vpeak ipeak : R),
    SimRC.set_Z self = Py.Ok s1 /\ SimRC.set_V_in s1 = Py.Ok s2 /\
    SimRC.set_I_out s2 = Py.Ok s3 /\ SimRC.set_dfts s3 = Py.Ok s4 /\
    SimRC.compare self = Py.Ok s4 /\
    SimRC.half_spectrum (SimRC.V_in s2) = Py.Ok (vdft, vpeak) /\
    SimRC.half_spectrum (SimRC.I_out s3) = Py.Ok (idft, ipeak) /\
    ipeak <> 0 /\
    SimRC.V_amp s4 = vpeak /\ SimRC.I_amp s4 = ipeak /\
    SimRC.Z_calc s4 = Np.Finite (vpeak / ipeak).
Proof.
  intros Hv.
  destruct (compare_steps self Hv)
    as (n & ts & p & _ & (Hz & Hp & _) & H1 & H2 & H3 & HhV & HhI & H4).
  cbv zeta in *.
  set (z := impedance self) in *.
  set (V := map (SimRC.sample self) ts) in *.
  set (I := map (fun v => (- v) / z) V) in *.
  exists (SimRC.with_Z self z), (SimRC.with_t_V_in (SimRC.with_Z self z) ts V),
    (SimRC.with_I_out (SimRC.with_t_V_in (SimRC.with_Z self z) ts V) I),
    (compared self ts p), (spectrum V), (spectrum I), p, (p / z).
  split; [exact H1|]. split; [exact H2|]. split; [exact H3|]. split; [exact H4|].
  split.
  { unfold SimRC.compare. rewrite H1. cbn [Py.bind]. rewrite H2. cbn [Py.bind].
    rewrite H3. cbn [Py.bind]. exact H4. }
  split; [exact HhV|]. split; [exact HhI|].
  split; [apply Rgt_not_eq, Rdiv_lt_0_compat; assumption|].
  split; [reflexivity|]. split; [reflexivity|].
  unfold compared. cbn [SimRC.Z_calc SimRC.with_dfts]. fold z.
  f_equal. field. split; lra.
Qed.

(** At the class defaults. *)
Lemma C7_empirical_is_peak_ratio_witness :
  SimRC.valid SimRC.init = true /\
  exists (s1 s2 s3 s4 : SimRC.state) (vdft idft : Np.ndarray) (vpeak ipeak : R),
    SimRC.set_Z SimRC.init = Py.Ok s1 /\ SimRC.set_V_in s1 = Py.Ok s2 /\
    SimRC.set_I_out s2 = Py.Ok s3 /\ SimRC.set_dfts s3 = Py.Ok s4 /\
    SimRC.compare SimRC.init = Py.Ok s4 /\
    SimRC.half_spectrum (SimRC.V_in s2) = Py.Ok (vdft, vpeak) /\
    SimRC.half_spectrum (SimRC.I_out s3) = Py.Ok (idft, ipeak) /\
    ipeak <> 0 /\
    SimRC.V_amp s4 = vpeak /\ SimRC.I_amp s4 = ipeak /\
    SimRC.Z_calc s4 = Np.Finite (vpeak / ipeak).
Proof.
  split; [reflexivity|].
  exact (C7_empirical_is_peak_ratio SimRC.init eq_refl).
Defined.

(** C8, as stated, fails on the code: a division by zero is not surfaced.
    On a fresh object [Z] is the class attribute [0]; assigning
    [cycle_num = 2] (within its bounds) runs [set_V_in], [set_I_out] and
    [set_dfts], which raise nothing and leave NaN as current peak and as
    empirical impedance. *)
Lemma C8_counterexample :
  SimRC.valid two_cycles = true /\ SimRC.Z two_cycles = 0 /\
  exists (I : Wide.warray) (p : R),
    Wide.on_cycle_num two_cycles
    = Py.Ok (Some (Wide.mkOutcome I p Np.NaN Np.NaN)).
Proof.
  split; [reflexivity|]. split; [reflexivity|].
  destruct (on_cycle_num_zero_Z two_cycles eq_refl eq_refl) as (I & p & _ & H).
  exists I, p. exact H.
Qed.

(** C8, amended: the methods check nothing and handle no error themselves.
    What reaches the caller as an exception is what Python and numpy raise
    on their own: for parameters that convert exactly to floats, a full
    recomputation raises [ZeroDivisionError] when the frequency or the
    capacitance is zero, and [ValueError] when fewer than two samples are
    synthesized.  A division by zero inside numpy is not surfaced: for every
    parameter set within the bounds, while [Z] is [0] the methods that
    assigning [cycle_num] runs raise nothing and leave NaN as current peak
    and as empirical impedance.  A full recomputation on parameters within
    the bounds raises nothing and stores a finite empirical impedance. *)
Theorem C8_failures_are_the_raised_exceptions :
  (forall self : SimRC.state,
     exact_params self = true ->
     SimRC.freq self = 0%Z \/ SimRC.nC self = 0%Z ->
     SimRC.compare self = Py.Raise Py.ZeroDivisionError) /\
  (forall (self : SimRC.state) (n : Z),
     exact_params self = true ->
     SimRC.freq self <> 0%Z -> SimRC.nC self <> 0%Z ->
     SimRC.samp_num (SimRC.cycle_num self) (SimRC.freq self) = Py.Ok n ->
     (n < 2)%Z ->
     SimRC.compare self = Py.Raise Py.ValueError) /\
  (forall self : SimRC.state,
     SimRC.valid self = true -> SimRC.Z self = 0 ->
     exists (I : Wide.warray) (p : R),
       Wide.on_cycle_num self
       = Py.Ok (Some (Wide.mkOutcome I p Np.NaN Np.NaN))) /\
  (forall self : SimRC.state,
     SimRC.valid self = true ->
     exists (s' : SimRC.state) (x : R),
       SimRC.compare self = Py.Ok s' /\ SimRC.Z_calc s' = Np.Finite x).
Proof.
  split; [intros self _; apply compare_zero_division|].
  split; [intros self n _; apply compare_value_error|].
  split.
  - intros self Hv HZ.
    destruct (on_cycle_num_zero_Z self Hv HZ) as (I & p & _ & H).
    exists I, p. exact H.
  - intros self Hv.
    destruct (compare_spec self Hv) as (n & ts & p & _ & _ & _ & _ & Hcmp).
    exists (compared self ts p), (impedance self).
    split; [exact Hcmp|reflexivity].
Qed.

(** Zero frequency, zero cycles, the fresh object with two cycles, and the
    class defaults. *)
Lemma C8_failures_are_the_raised_exceptions_witness :
  SimRC.compare (SimRC.with_params SimRC.init 0 1 1 1)
    = Py.Raise Py.ZeroDivisionError /\
  SimRC.compare (SimRC.with_params SimRC.init 1 0 1 1)
    = Py.Raise Py.ValueError /\
  (exists (I : Wide.warray) (p : R),
     Wide.on_cycle_num two_cycles
     = Py.Ok (Some (Wide.mkOutcome I p Np.NaN Np.NaN))) /\
  (exists (s' : SimRC.state) (x : R),
     SimRC.compare SimRC.init = Py.Ok s' /\ SimRC.Z_calc s' = Np.Finite x).
Proof.
  destruct C8_failures_are_the_raised_exceptions as (Ha & Hb & Hc & Hd).
  split; [apply Ha; [reflexivity|left; reflexivity]|].
  split.
  - apply (Hb (SimRC.with_params SimRC.init 1 0 1 1) 0%Z).
    + reflexivity.
    + discriminate.
    + discriminate.
    + vm_compute. reflexivity.
    + lia.
  - split; [apply Hc; reflexivity|].
    apply Hd; reflexivity.
Defined.

(** C9: at [freq = 1], [cycle_num = 1], [R = 1], [nC = 1] the whole
    recomputation completes: 100 samples (at least 2), a strictly positive
    impedance, a non-zero current peak, and a finite empirical impedance. *)
Theorem C9_boundary_executes :
  exists s' : SimRC.state,
    SimRC.compare (SimRC.with_params SimRC.init 1 1 1 1) = Py.Ok s' /\
    SimRC.samp_num 1 1 = Py.Ok 100%Z /\
    length (SimRC.t s') = 100%nat /\ length (SimRC.V_in s') = 100%nat /\
    (2 <= length (SimRC.V_in s'))%nat /\
    length (SimRC.I_out s') = 100%nat /\
    0 < SimRC.Z s' /\ SimRC.I_amp s' <> 0 /\
    exists x : R, SimRC.Z_calc s' = Np.Finite x.
Proof.
  assert (E1 : SimRC.samp_num 1 1 = Py.Ok 100%Z) by (vm_compute; reflexivity).
  destruct (compare_steps (SimRC.with_params SimRC.init 1 1 1 1) eq_refl)
    as (n & ts & p & (Hsamp & _ & Hlen & _) & (Hz & Hp & _) & H1 & H2 & H3 & _ & _ & H4).
  cbv zeta in *.
  cbn [SimRC.with_params SimRC.cycle_num SimRC.freq] in Hsamp.
  rewrite E1 in Hsamp. injection Hsamp as Hn.
  assert (E : n = 100%nat) by lia. rewrite E in Hlen.
  eexists. split.
  { unfold SimRC.compare. rewrite H1. cbn [Py.bind]. rewrite H2. cbn [Py.bind].
    rewrite H3. cbn [Py.bind]. exact H4. }
  unfold compared.
  cbn [SimRC.t SimRC.V_in SimRC.I_out SimRC.Z SimRC.I_amp SimRC.Z_calc
       SimRC.with_dfts SimRC.with_I_out SimRC.with_t_V_in SimRC.with_Z].
  rewrite !length_map, Hlen.
  split; [exact E1|]. split; [reflexivity|]. split; [reflexivity|].
  split; [lia|]. split; [reflexivity|]. split; [exact Hz|].
  split; [apply Rgt_not_eq, Rdiv_lt_0_compat; assumption|].
  eexists. reflexivity.
Qed.

(** C10: for every valid parameter set, doubling the resistance with the
    frequency and the capacitance unchanged strictly increases the impedance
    [set_Z] stores. *)
Theorem C10_doubling_resistance (self : SimRC.state) :
  SimRC.valid self = true ->
  exists s1 s2 : SimRC.state,
    SimRC.set_Z self = Py.Ok s1 /\
    SimRC.set_Z (SimRC.with_params self (SimRC.freq self) (SimRC.cycle_num self)
                   (2 * SimRC.R self) (SimRC.nC self)) = Py.Ok s2 /\
    SimRC.Z s1 < SimRC.Z s2.
Proof.
  intros Hv. destruct (valid_bounds self Hv) as (Hf & _ & Hr & Hn).
  do 2 eexists. split; [apply set_Z_spec; lia|].
  split; [apply set_Z_spec; cbn [SimRC.with_params SimRC.freq SimRC.nC]; lia|].
  cbn [SimRC.Z SimRC.with_Z]. unfold impedance, reactance.
  cbn [SimRC.with_params SimRC.freq SimRC.nC SimRC.R].
  rewrite mult_IZR.
  assert (Hr1 : 1 <= IZR (SimRC.R self)) by (apply IZR_le; lia).
  set (x := 1 / (IZR (SimRC.freq self) * (IZR (SimRC.nC self) * 1e-8))).
  pose proof (pow2_ge_0 x) as Hx. pose proof (pow2_ge_0 (IZR (SimRC.R self))) as Hr2.
  apply sqrt_lt_1_alt. split; [lra|]. nra.
Qed.

(** From the class defaults, [R = 1] doubled to 2. *)
Lemma C10_doubling_resistance_witness :
  SimRC.valid SimRC.init = true /\
  exists s1 s2 : SimRC.state,
    SimRC.set_Z SimRC.init = Py.Ok s1 /\
    SimRC.set_Z (SimRC.with_params SimRC.init 1 1 (2 * 1) 1) = Py.Ok s2 /\
    SimRC.Z s1 < SimRC.Z s2.
Proof.
  split; [reflexivity|].
  exact (C10_doubling_resistance SimRC.init eq_refl).
Defined.

End Properties.

(** * Further properties of the methods *)

(** ** [set_Z] *)

Section ImpedanceMore.
Local Open Scope R_scope.

Lemma IZR_neq_0 (z : Z) : z <> 0%Z -> IZR z <> 0.
Proof. intros H E. apply eq_IZR_R0 in E. contradiction. Qed.

Lemma reactance_neq_0 (self : SimRC.state) :
  SimRC.freq self <> 0%Z -> SimRC.nC self <> 0%Z -> reactance self <> 0.
Proof.
  intros Hf Hn. unfold reactance.
  pose proof (IZR_neq_0 _ Hf) as Hf0. pose proof (IZR_neq_0 _ Hn) as Hn0.
  unfold Rdiv. rewrite Rmult_1_l. apply Rinv_neq_0_compat.
  intros E. apply Rmult_integral in E. destruct E as [E|E]; [contradiction|].
  apply Rmult_integral in E. destruct E as [E|E]; [contradiction|lra].
Qed.

Lemma impedance_pos_gen (self : SimRC.state) :
  SimRC.freq self <> 0%Z -> SimRC.nC self <> 0%Z -> 0 < impedance self.
Proof.
  intros Hf Hn. unfold impedance. apply sqrt_lt_R0.
  pose proof (Rsqr_pos_lt _ (reactance_neq_0 self Hf Hn)) as Hx.
  unfold Rsqr in Hx.
  pose proof (pow2_ge_0 (IZR (SimRC.R self))) as Hr2.
  replace (reactance self ^ 2) with (reactance self * reactance self) by ring.
  lra.
Qed.

(** The reactance of valid parameters is at least 10 ohms. *)
Lemma reactance_ge_10 (self : SimRC.state) :
  SimRC.valid self = true -> 10 <= reactance self.
Proof.
  intros Hv. destruct (valid_bounds self Hv) as (Hf & _ & _ & Hn).
  unfold reactance.
  assert (Hp : (1 <= SimRC.freq self * SimRC.nC self <= 10000000)%Z) by nia.
  replace (IZR (SimRC.freq self) * (IZR (SimRC.nC self) * 1e-8))
    with (IZR (SimRC.freq self * SimRC.nC self) * 1e-8)
    by (rewrite mult_IZR; ring).
  destruct Hp as [Hp1 Hp2]. apply IZR_le in Hp1, Hp2.
  set (q := IZR (SimRC.freq self * SimRC.nC self)) in *.
  apply (Rmult_le_reg_r (q * 1e-8)); [lra|].
  replace (1 / (q * 1e-8) * (q * 1e-8)) with 1 by (field; lra). lra.
Qed.

Lemma sqrt_sum_squares_bounds (r x : R) :
  0 < r -> 0 < x ->
  r < sqrt (r ^ 2 + x ^ 2) /\ x < sqrt (r ^ 2 + x ^ 2) /\
  sqrt (r ^ 2 + x ^ 2) <= r + x.
Proof.
  intros Hr Hx.
  assert (Hr2 : sqrt (r * r) = r) by (apply sqrt_square; lra).
  assert (Hx2 : sqrt (x * x) = x) by (apply sqrt_square; lra).
  assert (Hs : sqrt ((r + x) * (r + x)) = r + x) by (apply sqrt_square; lra).
  split; [|split].
  - rewrite <- Hr2 at 1. apply sqrt_lt_1_alt. nra.
  - rewrite <- Hx2 at 1. apply sqrt_lt_1_alt. nra.
  - rewrite <- Hs. apply sqrt_le_1_alt. nra.
Qed.

(** X1: for valid parameters the impedance [set_Z] stores exceeds the
    resistance, is at most the sum of the resistance and the reactance
    [1/(freq * nC * 1e-8)], and is above 10 ohms. *)
Theorem X1_impedance_bounds (self : SimRC.state) :
  SimRC.valid self = true ->
  exists s' : SimRC.state,
    SimRC.set_Z self = Py.Ok s' /\
    let X := 1 / (IZR (SimRC.freq self) * (IZR (SimRC.nC self) * 1e-8)) in
    IZR (SimRC.R self) < SimRC.Z s' /\
    SimRC.Z s' <= IZR (SimRC.R self) + X /\ 10 < SimRC.Z s'.
Proof.
  intros Hv. destruct (valid_bounds self Hv) as (Hf & _ & Hr & Hn).
  eexists. split; [apply set_Z_spec; lia|].
  cbv zeta. cbn [SimRC.Z SimRC.with_Z]. unfold impedance.
  fold (reactance self).
  pose proof (reactance_ge_10 self Hv) as Hx.
  assert (Hr0 : 0 < IZR (SimRC.R self)) by (apply IZR_pos_gt_0; lia).
  destruct (sqrt_sum_squares_bounds (IZR (SimRC.R self)) (reactance self))
    as (H1 & H2 & H3); [exact Hr0|lra|].
  repeat split; try assumption. lra.
Qed.

(** At the class defaults. *)
Lemma X1_impedance_bounds_witness :
  SimRC.valid SimRC.init = true /\
  exists s' : SimRC.state,
    SimRC.set_Z SimRC.init = Py.Ok s' /\
    IZR 1 < SimRC.Z s' /\
    SimRC.Z s' <= IZR 1 + 1 / (IZR 1 * (IZR 1 * 1e-8)) /\ 10 < SimRC.Z s'.
Proof.
  split; [reflexivity|].
  exact (X1_impedance_bounds SimRC.init eq_refl).
Defined.

(** X2: the impedance [set_Z] stores rises with the resistance and falls
    when the product of frequency and capacitance rises: between two valid
    parameter sets with [R1 <= R2] and [freq2 * nC2 <= freq1 * nC1], one of
    the two strict, [Z1 < Z2]. *)
Theorem X2_impedance_monotone (s1 s2 : SimRC.state) :
  SimRC.valid s1 = true -> SimRC.valid s2 = true ->
  (SimRC.R s1 <= SimRC.R s2)%Z ->
  (SimRC.freq s2 * SimRC.nC s2 <= SimRC.freq s1 * SimRC.nC s1)%Z ->
  (SimRC.R s1 < SimRC.R s2 \/
   SimRC.freq s2 * SimRC.nC s2 < SimRC.freq s1 * SimRC.nC s1)%Z ->
  exists t1 t2 : SimRC.state,
    SimRC.set_Z s1 = Py.Ok t1 /\ SimRC.set_Z s2 = Py.Ok t2 /\
    SimRC.Z t1 < SimRC.Z t2.
Proof.
  intros Hv1 Hv2 HR Hp Hstrict.
  destruct (valid_bounds s1 Hv1) as (Hf1 & _ & Hr1 & Hn1).
  destruct (valid_bounds s2 Hv2) as (Hf2 & _ & Hr2 & Hn2).
  do 2 eexists. split; [apply set_Z_spec; lia|]. split; [apply set_Z_spec; lia|].
  cbn [SimRC.Z SimRC.with_Z]. unfold impedance, reactance.
  replace (IZR (SimRC.freq s1) * (IZR (SimRC.nC s1) * 1e-8))
    with (IZR (SimRC.freq s1 * SimRC.nC s1) * 1e-8) by (rewrite mult_IZR; ring).
  replace (IZR (SimRC.freq s2) * (IZR (SimRC.nC s2) * 1e-8))
    with (IZR (SimRC.freq s2 * SimRC.nC s2) * 1e-8) by (rewrite mult_IZR; ring).
  assert (Hq1 : (1 <= SimRC.freq s1 * SimRC.nC s1)%Z) by nia.
  assert (Hq2 : (1 <= SimRC.freq s2 * SimRC.nC s2)%Z) by nia.
  apply IZR_le in Hq1, Hq2, HR. pose proof (IZR_le _ _ Hp) as Hp'.
  assert (Hr1' : 1 <= IZR (SimRC.R s1)) by (apply IZR_le; lia).
  set (q1 := IZR (SimRC.freq s1 * SimRC.nC s1)) in *.
  set (q2 := IZR (SimRC.freq s2 * SimRC.nC s2)) in *.
  set (r1 := IZR (SimRC.R s1)) in *. set (r2 := IZR (SimRC.R s2)) in *.
  assert (Hx1 : 0 < 1 / (q1 * 1e-8)) by (apply Rdiv_lt_0_compat; lra).
  assert (Hx : 1 / (q1 * 1e-8) <= 1 / (q2 * 1e-8)).
  { unfold Rdiv. rewrite !Rmult_1_l. apply Rinv_le_contravar; lra. }
  assert (Hor : r1 < r2 \/ 1 / (q1 * 1e-8) < 1 / (q2 * 1e-8)).
  { destruct Hstrict as [H|H].
    - left. apply IZR_lt. exact H.
    - right. apply IZR_lt in H. fold q1 q2 in H.
      unfold Rdiv. rewrite !Rmult_1_l. apply Rinv_lt_contravar; [|lra].
      apply Rmult_lt_0_compat; lra. }
  set (x1 := 1 / (q1 * 1e-8)) in *. set (x2 := 1 / (q2 * 1e-8)) in *.
  apply sqrt_lt_1_alt. split; [nra|].
  destruct Hor; nra.
Qed.

(** From the class defaults to a tenfold frequency. *)
Lemma X2_impedance_monotone_witness :
  exists t1 t2 : SimRC.state,
    SimRC.set_Z (SimRC.with_params SimRC.init 10 1 1 1) = Py.Ok t1 /\
    SimRC.set_Z SimRC.init = Py.Ok t2 /\
    SimRC.Z t1 < SimRC.Z t2.
Proof.
  apply (X2_impedance_monotone (SimRC.with_params SimRC.init 10 1 1 1) SimRC.init).
  - reflexivity.
  - reflexivity.
  - simpl. lia.
  - simpl. lia.
  - right. simpl. lia.
Defined.

(** X3: on parameters that convert exactly to floats (below [2^53] in
    absolute value), [set_Z] fails exactly when the frequency or the
    capacitance is zero, with [ZeroDivisionError]; whenever it returns,
    also on parameters outside their bounds, the stored impedance is
    strictly positive. *)
Theorem X3_set_Z_outcomes (self : SimRC.state) :
  exact_params self = true ->
  match SimRC.set_Z self with
  | Py.Ok s' =>
      SimRC.freq self <> 0%Z /\ SimRC.nC self <> 0%Z /\ 0 < SimRC.Z s'
  | Py.Raise e =>
      e = Py.ZeroDivisionError /\ (SimRC.freq self = 0%Z \/ SimRC.nC self = 0%Z)
  end.
Proof.
  intros _.
  destruct (Z.eq_dec (SimRC.freq self) 0) as [Hf|Hf].
  - rewrite set_Z_zero_division by (left; exact Hf). split; [reflexivity|left; exact Hf].
  - destruct (Z.eq_dec (SimRC.nC self) 0) as [Hn|Hn].
    + rewrite set_Z_zero_division by (right; exact Hn).
      split; [reflexivity|right; exact Hn].
    + rewrite set_Z_spec by assumption. cbn [SimRC.Z SimRC.with_Z].
      repeat split; try assumption. apply impedance_pos_gen; assumption.
Qed.

(** A zero frequency, outside its bounds: [ZeroDivisionError]. *)
Lemma X3_set_Z_outcomes_witness :
  exact_params (SimRC.with_params SimRC.init 0 1 1 1) = true /\
  match SimRC.set_Z (SimRC.with_params SimRC.init 0 1 1 1) with
  | Py.Ok s' =>
      SimRC.freq (SimRC.with_params SimRC.init 0 1 1 1) <> 0%Z /\
      SimRC.nC (SimRC.with_params SimRC.init 0 1 1 1) <> 0%Z /\ 0 < SimRC.Z s'
  | Py.Raise e =>
      e = Py.ZeroDivisionError /\
      (SimRC.freq (SimRC.with_params SimRC.init 0 1 1 1) = 0%Z \/
       SimRC.nC (SimRC.with_params SimRC.init 0 1 1 1) = 0%Z)
  end.
Proof.
  split; [reflexivity|].
  apply (X3_set_Z_outcomes (SimRC.with_params SimRC.init 0 1 1 1)). reflexivity.
Defined.

End ImpedanceMore.

(** ** [set_V_in] *)

Section SynthesizeMore.
Local Open Scope R_scope.

(** Whenever [set_V_in] returns, it has stored a grid and the sine on it. *)
Lemma set_V_in_inv (self s' : SimRC.state) :
  SimRC.set_V_in self = Py.Ok s' ->
  exists ts : Np.ndarray,
    s' = SimRC.with_t_V_in self ts (map (SimRC.sample self) ts).
Proof.
  unfold SimRC.set_V_in. intros H.
  destruct (Py.truediv _ _) as [d|e]; [|discriminate H]. cbn [Py.bind] in H.
  destruct (SimRC.samp_num _ _) as [n|e]; [|discriminate H]. cbn [Py.bind] in H.
  destruct (Np.linspace 0 d n) as [ts|e]; [|discriminate H]. cbn [Py.bind] in H.
  exists ts. injection H as <-. reflexivity.
Qed.

Lemma set_V_in_returns (self : SimRC.state) :
  SimRC.valid self = true -> exists s' : SimRC.state, SimRC.set_V_in self = Py.Ok s'.
Proof.
  intros Hv. destruct (set_V_in_spec self Hv) as (n & ts & _ & _ & H & _).
  eexists. exact H.
Qed.

(** Every sample of the sine lies within the amplitude. *)
Lemma sample_within_amplitude (V : Np.ndarray) (self : SimRC.state) (ts : Np.ndarray) :
  V = map (SimRC.sample self) ts ->
  forall v : R, In v V -> - SimRC.amp <= v <= SimRC.amp.
Proof.
  intros -> v Hv. apply in_map_iff in Hv. destruct Hv as (ti & <- & _).
  unfold SimRC.sample, SimRC.amp.
  pose proof (SIN_bound (IZR (SimRC.freq self) * (2 * PI * ti))) as [Hlo Hhi].
  split; nra.
Qed.

(** X4: whenever [set_V_in] returns, on any parameters, [t] and [V_in] have
    the same length and every voltage lies within [-amp, amp]. *)
Theorem X4_voltage_within_amplitude (self s' : SimRC.state) :
  SimRC.set_V_in self = Py.Ok s' ->
  length (SimRC.t s') = length (SimRC.V_in s') /\
  forall v : R, In v (SimRC.V_in s') -> - SimRC.amp <= v <= SimRC.amp.
Proof.
  intros H. destruct (set_V_in_inv self s' H) as (ts & ->).
  cbn [SimRC.t SimRC.V_in SimRC.with_t_V_in].
  split; [rewrite length_map; reflexivity|].
  intros v Hv. apply in_map_iff in Hv. destruct Hv as (ti & <- & _).
  unfold SimRC.sample, SimRC.amp.
  pose proof (SIN_bound (IZR (SimRC.freq self) * (2 * PI * ti))) as [Hlo Hhi].
  split; nra.
Qed.

(** At the class defaults. *)
Lemma X4_voltage_within_amplitude_witness :
  exists s' : SimRC.state,
    SimRC.set_V_in SimRC.init = Py.Ok s' /\
    length (SimRC.t s') = length (SimRC.V_in s') /\
    forall v : R, In v (SimRC.V_in s') -> - SimRC.amp <= v <= SimRC.amp.
Proof.
  destruct (set_V_in_returns SimRC.init eq_refl) as (s' & H).
  exists s'. split; [exact H|].
  exact (X4_voltage_within_amplitude SimRC.init s' H).
Defined.

(** X5: after a recomputation on valid parameters [t], [V_in] and [I_out]
    share one length [n], which is [100 * cycle_num] or one less and so lies
    between 99 and 1000 whatever the frequency, and both spectra have
    [n / 2] entries. *)
Theorem X5_array_sizes (self : SimRC.state) :
  SimRC.valid self = true ->
  exists (s' : SimRC.state) (n : nat),
    SimRC.compare self = Py.Ok s' /\
    (Z.of_nat n = 100 * SimRC.cycle_num self \/
     Z.of_nat n = 100 * SimRC.cycle_num self - 1)%Z /\
    (99 <= n <= 1000)%nat /\
    length (SimRC.t s') = n /\ length (SimRC.V_in s') = n /\
    length (SimRC.I_out s') = n /\
    length (SimRC.V_dft s') = (n / 2)%nat /\
    length (SimRC.I_dft s') = (n / 2)%nat.
Proof.
  intros Hv. destruct (valid_bounds self Hv) as (_ & Hc & _ & _).
  destruct (compare_spec self Hv) as (n & ts & p & Hrange & Hlen & _ & _ & Hcmp).
  exists (compared self ts p), n.
  split; [exact Hcmp|]. split; [exact Hrange|]. split; [lia|].
  unfold compared.
  cbn [SimRC.t SimRC.V_in SimRC.I_out SimRC.V_dft SimRC.I_dft SimRC.with_dfts
       SimRC.with_I_out SimRC.with_t_V_in SimRC.with_Z].
  rewrite !length_spectrum, !length_map, Hlen. repeat split; reflexivity.
Qed.

(** At the class defaults. *)
Lemma X5_array_sizes_witness :
  SimRC.valid SimRC.init = true /\
  exists (s' : SimRC.state) (n : nat),
    SimRC.compare SimRC.init = Py.Ok s' /\
    (Z.of_nat n = 100 * 1 \/ Z.of_nat n = 100 * 1 - 1)%Z /\
    (99 <= n <= 1000)%nat /\
    length (SimRC.t s') = n /\ length (SimRC.V_in s') = n /\
    length (SimRC.I_out s') = n /\
    length (SimRC.V_dft s') = (n / 2)%nat /\
    length (SimRC.I_dft s') = (n / 2)%nat.
Proof.
  split; [reflexivity|].
  exact (X5_array_sizes SimRC.init eq_refl).
Defined.

(** X6: on valid parameters consecutive times lie further apart than the
    period [1 / samp_rate] of the sampling rate [freq * 100] the method
    names: the grid includes both endpoints, so [n] samples span [n - 1]
    steps. *)
Theorem X6_time_step_exceeds_nominal (self : SimRC.state) :
  SimRC.valid self = true ->
  exists s' : SimRC.state,
    SimRC.set_V_in self = Py.Ok s' /\
    forall i : nat, (S i < length (SimRC.t s'))%nat ->
      1 / IZR (SimRC.freq self * 100) <
      nth (S i) (SimRC.t s') 0 - nth i (SimRC.t s') 0.
Proof.
  intros Hv. destruct (valid_bounds self Hv) as (Hf & Hc & _ & _).
  destruct (set_V_in_spec self Hv) as (n & ts & _ & Hrange & HV & Hlen & Hts).
  eexists. split; [exact HV|].
  cbn [SimRC.t SimRC.with_t_V_in]. rewrite Hlen. intros i Hi.
  rewrite !Hts by lia. rewrite S_INR, mult_IZR.
  pose proof (samples_span self Hv n ts Hrange Hlen) as Hspan.
  assert (Hf0 : 0 < IZR (SimRC.freq self)) by (apply IZR_pos_gt_0; lia).
  assert (Hc0 : 1 <= IZR (SimRC.cycle_num self)) by (apply IZR_le; lia).
  set (c := IZR (SimRC.cycle_num self)) in *.
  set (f := IZR (SimRC.freq self)) in *.
  set (d := INR (n - 1)) in *.
  assert (Hd : 0 < d < 100 * c) by (destruct Hspan as [E|E]; rewrite E; lra).
  replace ((INR i + 1) * (c / f / d) - INR i * (c / f / d)) with (c / (f * d))
    by (field; lra).
  assert (Hfd : 0 < f * d) by (apply Rmult_lt_0_compat; lra).
  assert (Hf100 : 0 < f * 100) by lra.
  apply (Rmult_lt_reg_r (f * d)); [exact Hfd|].
  replace (c / (f * d) * (f * d)) with c by (field; lra).
  apply (Rmult_lt_reg_r (f * 100)); [exact Hf100|].
  replace (1 / (f * 100) * (f * d) * (f * 100)) with (f * d) by (field; lra).
  nra.
Qed.

(** At the class defaults. *)
Lemma X6_time_step_exceeds_nominal_witness :
  SimRC.valid SimRC.init = true /\
  exists s' : SimRC.state,
    SimRC.set_V_in SimRC.init = Py.Ok s' /\
    forall i : nat, (S i < length (SimRC.t s'))%nat ->
      1 / IZR (1 * 100) < nth (S i) (SimRC.t s') 0 - nth i (SimRC.t s') 0.
Proof.
  split; [reflexivity|].
  exact (X6_time_step_exceeds_nominal SimRC.init eq_refl).
Defined.

(** The sine sampled over whole cycles is odd about the middle of the grid. *)
Lemma samples_mirror (self : SimRC.state) (n : nat) (ts : Np.ndarray) (i : nat) :
  SimRC.valid self = true ->
  (Z.of_nat n = 100 * SimRC.cycle_num self \/
   Z.of_nat n = 100 * SimRC.cycle_num self - 1)%Z ->
  length ts = n ->
  (forall i : nat, (i < n)%nat ->
     nth i ts 0 =
     INR i * (IZR (SimRC.cycle_num self) / IZR (SimRC.freq self) / INR (n - 1))) ->
  (i < n)%nat ->
  nth (n - 1 - i) (map (SimRC.sample self) ts) 0 =
  - nth i (map (SimRC.sample self) ts) 0.
Proof.
  intros Hv Hrange Hlen Hts Hi.
  destruct (valid_bounds self Hv) as (_ & Hc & _ & _).
  pose proof (samples_count self Hv n Hrange) as Hn.
  rewrite !(samples_nth self Hv n ts Hrange Hlen Hts) by lia.
  assert (Hd : INR (n - 1) <> 0) by (apply not_0_INR; lia).
  replace (2 * PI * IZR (SimRC.cycle_num self) * INR (n - 1 - i) / INR (n - 1))
    with (- (2 * PI * IZR (SimRC.cycle_num self) * INR i / INR (n - 1))
          + 2 * INR (Z.to_nat (SimRC.cycle_num self)) * PI).
  - rewrite sin_period, sin_neg. ring.
  - rewrite (INR_IZR_INZ (Z.to_nat (SimRC.cycle_num self))), Z2Nat.id by lia.
    rewrite (minus_INR (n - 1) i) by lia. field. exact Hd.
Qed.

(** X7: in exact real arithmetic, on valid parameters the voltage wave
    starts and ends on a zero crossing and is odd about the middle of the
    grid: [V_in[n-1-i] = - V_in[i]].  (In binary64 only [V_in[0]] is exactly
    zero; the other equalities hold up to rounding.) *)
Theorem X7_voltage_odd_symmetry (self : SimRC.state) :
  SimRC.valid self = true ->
  exists s' : SimRC.state,
    SimRC.set_V_in self = Py.Ok s' /\
    nth 0 (SimRC.V_in s') 0 = 0 /\
    nth (length (SimRC.V_in s') - 1) (SimRC.V_in s') 0 = 0 /\
    forall i : nat, (i < length (SimRC.V_in s'))%nat ->
      nth (length (SimRC.V_in s') - 1 - i) (SimRC.V_in s') 0 =
      - nth i (SimRC.V_in s') 0.
Proof.
  intros Hv.
  destruct (set_V_in_spec self Hv) as (n & ts & _ & Hrange & HV & Hlen & Hts).
  eexists. split; [exact HV|].
  cbn [SimRC.V_in SimRC.with_t_V_in]. rewrite length_map, Hlen.
  split; [apply (samples_first self Hv n ts Hrange Hlen Hts)|].
  split; [apply (samples_last self Hv n ts Hrange Hlen Hts)|].
  intros i Hi. apply samples_mirror; assumption.
Qed.

(** At the class defaults. *)
Lemma X7_voltage_odd_symmetry_witness :
  SimRC.valid SimRC.init = true /\
  exists s' : SimRC.state,
    SimRC.set_V_in SimRC.init = Py.Ok s' /\
    nth 0 (SimRC.V_in s') 0 = 0 /\
    nth (length (SimRC.V_in s') - 1) (SimRC.V_in s') 0 = 0 /\
    forall i : nat, (i < length (SimRC.V_in s'))%nat ->
      nth (length (SimRC.V_in s') - 1 - i) (SimRC.V_in s') 0 =
      - nth i (SimRC.V_in s') 0.
Proof.
  split; [reflexivity|].
  exact (X7_voltage_odd_symmetry SimRC.init eq_refl).
Defined.

End SynthesizeMore.

(** ** The body of [set_dfts] *)

Section SpectrumMore.
Local Open Scope R_scope.

(** Whenever the body returns, the series had at least two samples, the
    amplitudes are [spectrum] and the peak is their maximum. *)
Lemma half_spectrum_inv (a s : Np.ndarray) (p : R) :
  SimRC.half_spectrum a = Py.Ok (s, p) ->
  (2 <= length a)%nat /\ s = spectrum a /\ In p s /\
  forall y : R, In y s -> y <= p.
Proof.
  intros H.
  destruct a as [|x [|y a']]; [discriminate H|discriminate H|].
  assert (Hlen : (2 <= length (x :: y :: a'))%nat) by (simpl; lia).
  destruct (half_spectrum_spec _ Hlen) as (q & Hq & Hin & Hub).
  rewrite Hq in H. injection H as <- <-.
  repeat split; assumption.
Qed.

Lemma half_spectrum_short (a : Np.ndarray) :
  (length a < 2)%nat -> SimRC.half_spectrum a = Py.Raise Py.ValueError.
Proof.
  destruct a as [|x [|y a']]; [reflexivity|reflexivity|simpl; lia].
Qed.

(** X8: the body of [set_dfts] fails exactly on series of fewer than two
    samples, with [ValueError] (an empty series in [np.fft.fft], a single
    sample in [np.max] of the empty half); otherwise it returns [len // 2]
    non-negative amplitudes, none above the peak, which is one of them. *)
Theorem X8_half_spectrum_outcomes (a : Np.ndarray) :
  match SimRC.half_spectrum a with
  | Py.Ok (s, p) =>
      (2 <= length a)%nat /\ length s = (length a / 2)%nat /\ In p s /\
      forall x : R, In x s -> 0 <= x <= p
  | Py.Raise e => e = Py.ValueError /\ (length a < 2)%nat
  end.
Proof.
  destruct (le_lt_dec 2 (length a)) as [Hlen|Hlen].
  - destruct (half_spectrum_spec a Hlen) as (p & -> & Hin & Hub).
    split; [exact Hlen|]. split; [apply length_spectrum|]. split; [exact Hin|].
    intros x Hx. split; [apply (spectrum_nonneg a x Hx)|apply Hub; exact Hx].
  - rewrite half_spectrum_short by exact Hlen. split; [reflexivity|exact Hlen].
Qed.

Lemma sumf_shift (n : nat) (g : nat -> R) :
  sumf (S n) g = g 0%nat + sumf n (fun m => g (S m)).
Proof.
  induction n as [|n IH]; [cbn [sumf]; ring|].
  change (sumf (S (S n)) g) with (sumf (S n) g + g (S n)).
  rewrite IH. cbn [sumf]. ring.
Qed.

Lemma sumf_nth (a : list R) :
  sumf (length a) (fun m => nth m a 0) = fold_right Rplus 0 a.
Proof.
  induction a as [|x a IH]; [reflexivity|].
  cbn [length]. rewrite sumf_shift. cbn [nth fold_right]. rewrite IH. reflexivity.
Qed.

Lemma angle_0_r (n m : nat) : angle n m 0 = 0.
Proof. unfold angle. cbn [INR]. unfold Rdiv. ring. Qed.

Lemma dft_re_0 (a : Np.ndarray) : dft_re a 0 = fold_right Rplus 0 a.
Proof.
  unfold dft_re. rewrite <- sumf_nth. apply sumf_ext. intros m _.
  rewrite angle_0_r, cos_0. ring.
Qed.

Lemma dft_im_0 (a : Np.ndarray) : dft_im a 0 = 0.
Proof.
  unfold dft_im. rewrite sumf_zero; [ring|]. intros m _.
  rewrite angle_0_r, sin_0. ring.
Qed.

Lemma abs_of_parts (w : Cplx.complex) (r : R) :
  Cplx.re w = r -> Cplx.im w = 0 -> Cplx.abs w = Rabs r.
Proof.
  intros Hr Hi. unfold Cplx.abs. rewrite Hr, Hi.
  replace (r * r + 0 * 0) with (Rsqr r) by (unfold Rsqr; ring).
  apply sqrt_Rsqr_abs.
Qed.

(** X9: the first amplitude is twice the absolute mean of the series: the
    factor 2 of the single-sided scaling is applied to the constant
    component as well. *)
Theorem X9_first_amplitude_is_twice_mean (a : Np.ndarray) :
  (2 <= length a)%nat ->
  exists (s : Np.ndarray) (p : R),
    SimRC.half_spectrum a = Py.Ok (s, p) /\
    nth 0 s 0 = 2 * Rabs (fold_right Rplus 0 a / INR (length a)).
Proof.
  intros Hlen. destruct (half_spectrum_spec a Hlen) as (p & Hh & _).
  exists (spectrum a), p. split; [exact Hh|].
  assert (Hn : 0 < INR (length a)) by (apply lt_0_INR; lia).
  rewrite nth_spectrum by (apply Nat.div_str_pos; lia).
  rewrite (abs_of_parts _ (fold_right Rplus 0 a))
    by (rewrite ?dft_bin_re, ?dft_bin_im; auto using dft_re_0, dft_im_0).
  unfold Rdiv. rewrite Rabs_mult, (Rabs_right (/ INR (length a))).
  - ring.
  - left. apply Rinv_0_lt_compat. exact Hn.
Qed.

(** On the two samples [1; 0]. *)
Lemma X9_first_amplitude_is_twice_mean_witness :
  exists (s : Np.ndarray) (p : R),
    SimRC.half_spectrum [1; 0] = Py.Ok (s, p) /\
    nth 0 s 0 = 2 * Rabs (fold_right Rplus 0 [1; 0] / INR (length [1; 0])).
Proof.
  apply (X9_first_amplitude_is_twice_mean [1; 0]). simpl. lia.
Defined.

(** X10: in the transform of a real series bin [N - k] is the conjugate of
    bin [k]: the upper half of [2 * np.abs(np.fft.fft(a)) / len(a)], which
    the slice discards, repeats the amplitudes of the lower half. *)
Theorem X10_discarded_half_mirrors (a : Np.ndarray) (X : list Cplx.complex) (k : nat) :
  Np.fft a = Py.Ok X -> (0 < k < length a)%nat ->
  Cplx.re (nth (length a - k) X Cplx.zero) = Cplx.re (nth k X Cplx.zero) /\
  Cplx.im (nth (length a - k) X Cplx.zero) = - Cplx.im (nth k X Cplx.zero) /\
  2 * Cplx.abs (nth (length a - k) X Cplx.zero) / INR (length a) =
  2 * Cplx.abs (nth k X Cplx.zero) / INR (length a).
Proof.
  intros HX Hk.
  assert (Hne : a <> []) by (intros E; rewrite E in Hk; simpl in Hk; lia).
  assert (EX : X = map (Np.dft_bin a) (seq 0 (length a))).
  { destruct a as [|x a']; [contradiction|]. injection HX as <-. reflexivity. }
  rewrite EX. rewrite !nth_map_seq by lia.
  assert (Hre : Cplx.re (Np.dft_bin a (length a - k)) = Cplx.re (Np.dft_bin a k))
    by (rewrite !dft_bin_re; apply dft_re_mirror; [lia|exact Hne]).
  assert (Him : Cplx.im (Np.dft_bin a (length a - k)) = - Cplx.im (Np.dft_bin a k))
    by (rewrite !dft_bin_im; apply dft_im_mirror; [lia|exact Hne]).
  split; [exact Hre|]. split; [exact Him|].
  unfold Cplx.abs. rewrite Hre, Him. do 3 f_equal. ring.
Qed.

(** On the three samples [1; 2; 4], bins 1 and 2. *)
Lemma X10_discarded_half_mirrors_witness :
  exists X : list Cplx.complex,
    Np.fft [1; 2; 4] = Py.Ok X /\
    Cplx.re (nth (3 - 1) X Cplx.zero) = Cplx.re (nth 1 X Cplx.zero) /\
    Cplx.im (nth (3 - 1) X Cplx.zero) = - Cplx.im (nth 1 X Cplx.zero) /\
    2 * Cplx.abs (nth (3 - 1) X Cplx.zero) / INR 3 =
    2 * Cplx.abs (nth 1 X Cplx.zero) / INR 3.
Proof.
  eexists. split; [reflexivity|].
  apply (X10_discarded_half_mirrors [1; 2; 4] _ 1%nat); [reflexivity|simpl; lia].
Defined.

Lemma dft_re_times (c : R) (a : Np.ndarray) (k : nat) :
  dft_re (map (Rmult c) a) k = c * dft_re a k.
Proof.
  unfold dft_re. rewrite length_map, <- sumf_scal.
  apply sumf_ext. intros m Hm. rewrite nth_map0 by exact Hm. ring.
Qed.

Lemma dft_im_times (c : R) (a : Np.ndarray) (k : nat) :
  dft_im (map (Rmult c) a) k = c * dft_im a k.
Proof.
  unfold dft_im. rewrite length_map.
  rewrite (sumf_ext _ _ (fun m => c * (nth m a 0 * sin (angle (length a) m k)))).
  - rewrite sumf_scal. ring.
  - intros m Hm. rewrite nth_map0 by exact Hm. ring.
Qed.

Lemma abs_times (c : R) (a : Np.ndarray) (k : nat) :
  Cplx.abs (Np.dft_bin (map (Rmult c) a) k) = Rabs c * Cplx.abs (Np.dft_bin a k).
Proof.
  unfold Cplx.abs.
  rewrite !dft_bin_re, !dft_bin_im, dft_re_times, dft_im_times.
  set (r := dft_re a k). set (i := dft_im a k).
  replace (c * r * (c * r) + c * i * (c * i)) with (Rsqr c * (r * r + i * i))
    by (unfold Rsqr; ring).
  rewrite sqrt_mult_alt by apply Rle_0_sqr.
  rewrite sqrt_Rsqr_abs. reflexivity.
Qed.

Lemma spectrum_times (c : R) (a : Np.ndarray) :
  spectrum (map (Rmult c) a) = map (Rmult (Rabs c)) (spectrum a).
Proof.
  unfold spectrum. rewrite map_map, length_map.
  apply map_ext. intros k. rewrite abs_times. unfold Rdiv. ring.
Qed.

Lemma half_spectrum_times (c : R) (a s : Np.ndarray) (p : R) :
  SimRC.half_spectrum a = Py.Ok (s, p) ->
  SimRC.half_spectrum (map (Rmult c) a) =
  Py.Ok (map (Rmult (Rabs c)) s, Rabs c * p).
Proof.
  intros H. destruct (half_spectrum_inv a s p H) as (Hlen & -> & Hin & Hub).
  assert (Hlen' : (2 <= length (map (Rmult c) a))%nat)
    by (rewrite length_map; exact Hlen).
  destruct (half_spectrum_spec _ Hlen') as (q & Hq & Hqin & Hqub).
  rewrite Hq, spectrum_times. do 2 f_equal.
  rewrite spectrum_times in Hqin, Hqub.
  apply (max_unique (map (Rmult (Rabs c)) (spectrum a))); try assumption.
  - apply in_map. exact Hin.
  - intros y Hy. apply in_map_iff in Hy. destruct Hy as (y' & <- & Hy').
    apply Rmult_le_compat_l; [apply Rabs_pos|apply Hub; exact Hy'].
Qed.

(** X11: multiplying a series by a factor [c] multiplies every amplitude
    and the peak by [|c|]; in particular negating the series, as
    [set_I_out] does, changes neither. *)
Theorem X11_spectrum_homogeneous (c : R) (a s : Np.ndarray) (p : R) :
  SimRC.half_spectrum a = Py.Ok (s, p) ->
  SimRC.half_spectrum (map (Rmult c) a) =
    Py.Ok (map (Rmult (Rabs c)) s, Rabs c * p) /\
  SimRC.half_spectrum (map Ropp a) = Py.Ok (s, p).
Proof.
  intros H. split; [apply half_spectrum_times; exact H|].
  replace (map Ropp a) with (map (Rmult (-1)) a)
    by (apply map_ext; intros x; ring).
  rewrite (half_spectrum_times (-1) a s p H).
  assert (E : Rabs (-1) = 1) by (unfold Rabs; destruct (Rcase_abs (-1)); lra).
  rewrite E.
  replace (map (Rmult 1) s) with s.
  - replace (1 * p) with p by ring. reflexivity.
  - rewrite <- (map_id s) at 1. apply map_ext. intros x. ring.
Qed.

(** On the two samples [1; 0], tripled and negated. *)
Lemma X11_spectrum_homogeneous_witness :
  exists (s : Np.ndarray) (p : R),
    SimRC.half_spectrum [1; 0] = Py.Ok (s, p) /\
    SimRC.half_spectrum (map (Rmult (-3)) [1; 0]) =
      Py.Ok (map (Rmult (Rabs (-3))) s, Rabs (-3) * p) /\
    SimRC.half_spectrum (map Ropp [1; 0]) = Py.Ok (s, p).
Proof.
  destruct (half_spectrum_spec [1; 0]) as (p & Hh & _); [simpl; lia|].
  exists (spectrum [1; 0]), p. split; [exact Hh|].
  exact (X11_spectrum_homogeneous (-3) [1; 0] (spectrum [1; 0]) p Hh).
Defined.

(** The triangle inequality for [abs]. *)
Lemma abs_add_le (z w : Cplx.complex) :
  Cplx.abs (Cplx.add z w) <= Cplx.abs z + Cplx.abs w.
Proof.
  unfold Cplx.abs, Cplx.add. cbn [Cplx.re Cplx.im].
  set (a := Cplx.re z). set (b := Cplx.im z).
  set (c := Cplx.re w). set (d := Cplx.im w).
  pose proof (sqrt_pos (a * a + b * b)) as Hz.
  pose proof (sqrt_pos (c * c + d * d)) as Hw.
  assert (Ez : sqrt (a * a + b * b) * sqrt (a * a + b * b) = a * a + b * b)
    by (apply sqrt_sqrt; nra).
  assert (Ew : sqrt (c * c + d * d) * sqrt (c * c + d * d) = c * c + d * d)
    by (apply sqrt_sqrt; nra).
  set (u := sqrt (a * a + b * b)) in *. set (v := sqrt (c * c + d * d)) in *.
  assert (Hcs : a * c + b * d <= u * v).
  { destruct (Rle_lt_dec (a * c + b * d) 0) as [Hneg|Hpos].
    - assert (0 <= u * v) by (apply Rmult_le_pos; assumption). lra.
    - apply Rsqr_incr_0_var; [|apply Rmult_le_pos; assumption].
      unfold Rsqr.
      replace (u * v * (u * v)) with ((u * u) * (v * v)) by ring.
      rewrite Ez, Ew.
      pose proof (Rle_0_sqr (a * d - b * c)) as Hsq. unfold Rsqr in Hsq. nra. }
  rewrite <- (sqrt_square (u + v)) by lra.
  apply sqrt_le_1_alt. nra.
Qed.

Lemma abs_scale_cis (x theta : R) :
  Cplx.abs (Cplx.scale x (Cplx.cis theta)) = Rabs x.
Proof.
  unfold Cplx.abs, Cplx.scale, Cplx.cis. cbn [Cplx.re Cplx.im].
  replace (x * cos theta * (x * cos theta) + x * sin theta * (x * sin theta))
    with (Rsqr x * (Rsqr (sin theta) + Rsqr (cos theta))) by (unfold Rsqr; ring).
  rewrite sin2_cos2, Rmult_1_r. apply sqrt_Rsqr_abs.
Qed.

Lemma abs_zero : Cplx.abs Cplx.zero = 0.
Proof.
  unfold Cplx.abs, Cplx.zero. cbn [Cplx.re Cplx.im].
  replace (0 * 0 + 0 * 0) with 0 by ring. apply sqrt_0.
Qed.

(** No bin is larger than the sum of the absolute samples. *)
Lemma abs_dft_bin_le (a : Np.ndarray) (k : nat) (M : R) :
  (forall x : R, In x a -> Rabs x <= M) ->
  Cplx.abs (Np.dft_bin a k) <= INR (length a) * M.
Proof.
  intros HM. unfold Np.dft_bin.
  assert (Hgen : forall (g : nat -> R) (l : list nat),
             (forall m : nat, In m l -> Rabs (nth m a 0) <= M) ->
             Cplx.abs (fold_right Cplx.add Cplx.zero
                         (map (fun m => Cplx.scale (nth m a 0) (Cplx.cis (g m))) l))
             <= INR (length l) * M).
  { intros g l. induction l as [|m l IH]; intros Hl.
    - cbn [map fold_right length INR]. rewrite abs_zero. lra.
    - cbn [map fold_right]. change (length (m :: l)) with (S (length l)).
      rewrite S_INR.
      eapply Rle_trans; [apply abs_add_le|].
      rewrite abs_scale_cis.
      pose proof (Hl m (or_introl eq_refl)) as Hm.
      assert (IH' := IH (fun m' Hm' => Hl m' (or_intror Hm'))).
      lra. }
  rewrite <- (length_seq (length a) 0) at 2.
  apply Hgen. intros m Hm. apply in_seq in Hm.
  apply HM. apply nth_In. lia.
Qed.

Lemma amplitudes_le (a s : Np.ndarray) (p M : R) :
  SimRC.half_spectrum a = Py.Ok (s, p) ->
  (forall x : R, In x a -> Rabs x <= M) ->
  p <= 2 * M /\ forall y : R, In y s -> y <= 2 * M.
Proof.
  intros H HM. destruct (half_spectrum_inv a s p H) as (Hlen & -> & Hin & Hub).
  assert (Hall : forall y : R, In y (spectrum a) -> y <= 2 * M).
  { intros y Hy. unfold spectrum in Hy. apply in_map_iff in Hy.
    destruct Hy as (k & <- & _).
    assert (Hn : 0 < INR (length a)) by (apply lt_0_INR; lia).
    pose proof (abs_dft_bin_le a k M HM) as Hb.
    apply (Rmult_le_reg_r (INR (length a))); [exact Hn|].
    replace (2 * Cplx.abs (Np.dft_bin a k) / INR (length a) * INR (length a))
      with (2 * Cplx.abs (Np.dft_bin a k)) by (field; lra).
    lra. }
  split; [apply Hall; exact Hin|exact Hall].
Qed.

(** X12: when every sample lies within [-M, M] no amplitude, and so no
    peak, exceeds [2 * M]. *)
Theorem X12_amplitudes_at_most_twice_bound (a s : Np.ndarray) (p M : R) :
  SimRC.half_spectrum a = Py.Ok (s, p) ->
  (forall x : R, In x a -> Rabs x <= M) ->
  p <= 2 * M /\ forall y : R, In y s -> y <= 2 * M.
Proof.
  intros H HM.
  destruct (amplitudes_le a s p M H HM) as [Hp Hall].
  split; [exact Hp|].
  intros y Hy. apply Hall. exact Hy.
Qed.

(** On the two samples [1; 0], within [-1, 1]. *)
Lemma X12_amplitudes_at_most_twice_bound_witness :
  exists (s : Np.ndarray) (p : R),
    SimRC.half_spectrum [1; 0] = Py.Ok (s, p) /\
    p <= 2 * 1 /\ forall y : R, In y s -> y <= 2 * 1.
Proof.
  destruct (half_spectrum_spec [1; 0]) as (p & Hh & _); [simpl; lia|].
  exists (spectrum [1; 0]), p. split; [exact Hh|].
  apply (X12_amplitudes_at_most_twice_bound [1; 0] (spectrum [1; 0]) p 1 Hh).
  intros x [<-|[<-|[]]].
  - rewrite Rabs_R1. lra.
  - rewrite Rabs_R0. lra.
Defined.

End SpectrumMore.

(** ** [set_dfts] and the whole recomputation *)

Section PipelineMore.
Local Open Scope R_scope.

Lemma sumf_rev (n : nat) (g : nat -> R) :
  sumf n g = sumf n (fun i => g (n - 1 - i)%nat).
Proof.
  revert g. induction n as [|n IH]; intros g; [reflexivity|].
  rewrite (sumf_shift n (fun i => g (S n - 1 - i)%nat)).
  cbn [sumf]. rewrite (IH g).
  replace (S n - 1 - 0)%nat with n by lia.
  rewrite (sumf_ext n (fun m => g (S n - 1 - S m)%nat) (fun i => g (n - 1 - i)%nat))
    by (intros m Hm; f_equal; lia).
  ring.
Qed.

(** A sequence that is odd about its middle sums to zero. *)
Lemma sum_of_odd (a : list R) :
  (forall i : nat, (i < length a)%nat -> nth (length a - 1 - i) a 0 = - nth i a 0) ->
  fold_right Rplus 0 a = 0.
Proof.
  intros Hodd. rewrite <- sumf_nth.
  pose proof (sumf_rev (length a) (fun m => nth m a 0)) as Hrev.
  cbv beta in Hrev.
  rewrite (sumf_ext (length a) (fun i => nth (length a - 1 - i) a 0)
             (fun i => - nth i a 0)) in Hrev by exact Hodd.
  rewrite sumf_opp in Hrev. lra.
Qed.

Lemma spectrum_first_of_zero_sum (a : Np.ndarray) :
  (2 <= length a)%nat -> fold_right Rplus 0 a = 0 -> nth 0 (spectrum a) 0 = 0.
Proof.
  intros Hlen Hsum. rewrite nth_spectrum by (apply Nat.div_str_pos; lia).
  rewrite (abs_of_parts _ 0)
    by (rewrite ?dft_bin_re, ?dft_bin_im, ?dft_re_0; auto using dft_im_0).
  rewrite Rabs_R0. unfold Rdiv. ring.
Qed.

(** The recomputation on valid parameters, with its time grid. *)
Lemma compare_grid (self : SimRC.state) :
  SimRC.valid self = true ->
  exists (n : nat) (ts : Np.ndarray) (p : R),
    (Z.of_nat n = 100 * SimRC.cycle_num self \/
     Z.of_nat n = 100 * SimRC.cycle_num self - 1)%Z /\
    length ts = n /\
    (forall i : nat, (i < n)%nat ->
       nth i ts 0 =
       INR i * (IZR (SimRC.cycle_num self) / IZR (SimRC.freq self) / INR (n - 1))) /\
    0 < impedance self /\ 0 < p /\
    In p (spectrum (map (SimRC.sample self) ts)) /\
    SimRC.compare self = Py.Ok (compared self ts p).
Proof.
  intros Hv.
  destruct (compare_steps self Hv)
    as (n & ts & p & (_ & Hrange & Hlen & Hts) & (Hz & Hp & Hin & _)
        & H1 & H2 & H3 & _ & _ & H4).
  cbv zeta in *.
  exists n, ts, p. repeat (split; [assumption|]).
  unfold SimRC.compare. rewrite H1. cbn [Py.bind]. rewrite H2. cbn [Py.bind].
  rewrite H3. cbn [Py.bind]. exact H4.
Qed.

(** X13: in exact real arithmetic, after a recomputation on valid
    parameters the first entry of both spectra, the constant component, is
    zero: the sampled wave is odd about the middle of the grid, so its
    samples cancel.  (In binary64 a rounding residue remains.) *)
Theorem X13_constant_component_vanishes (self : SimRC.state) :
  SimRC.valid self = true ->
  exists s' : SimRC.state,
    SimRC.compare self = Py.Ok s' /\
    nth 0 (SimRC.V_dft s') 0 = 0 /\ nth 0 (SimRC.I_dft s') 0 = 0.
Proof.
  intros Hv.
  destruct (compare_grid self Hv)
    as (n & ts & p & Hrange & Hlen & Hts & Hz & _ & _ & Hcmp).
  assert (Hn : (99 <= n)%nat) by (apply (samples_count self Hv n Hrange)).
  exists (compared self ts p). split; [exact Hcmp|].
  unfold compared. cbn [SimRC.V_dft SimRC.I_dft SimRC.with_dfts].
  set (V := map (SimRC.sample self) ts).
  assert (HlenV : length V = n) by (unfold V; rewrite length_map; exact Hlen).
  assert (HV : nth 0 (spectrum V) 0 = 0).
  { apply spectrum_first_of_zero_sum; [lia|].
    apply sum_of_odd. rewrite HlenV. intros i Hi.
    apply samples_mirror; assumption. }
  split; [exact HV|].
  rewrite (spectrum_scaled (impedance self) Hz V).
  rewrite nth_map0 by (rewrite length_spectrum; apply Nat.div_str_pos; lia).
  rewrite HV. unfold Rdiv. ring.
Qed.

(** At the class defaults. *)
Lemma X13_constant_component_vanishes_witness :
  SimRC.valid SimRC.init = true /\
  exists s' : SimRC.state,
    SimRC.compare SimRC.init = Py.Ok s' /\
    nth 0 (SimRC.V_dft s') 0 = 0 /\ nth 0 (SimRC.I_dft s') 0 = 0.
Proof.
  split; [reflexivity|].
  exact (X13_constant_component_vanishes SimRC.init eq_refl).
Defined.

(** X14: after a recomputation on valid parameters the voltage peak lies
    in [(0, 2 * amp]], that is at most 3.3, the current peak in
    [(0, 2 * amp / Z]], and every current within [-amp / Z, amp / Z]. *)
Theorem X14_peaks_bounded (self : SimRC.state) :
  SimRC.valid self = true ->
  exists s' : SimRC.state,
    SimRC.compare self = Py.Ok s' /\
    0 < SimRC.V_amp s' <= 2 * SimRC.amp /\ 2 * SimRC.amp = 3.3 /\
    0 < SimRC.I_amp s' <= 2 * SimRC.amp / SimRC.Z s' /\
    forall i : R, In i (SimRC.I_out s') ->
      - (SimRC.amp / SimRC.Z s') <= i <= SimRC.amp / SimRC.Z s'.
Proof.
  intros Hv.
  destruct (compare_steps self Hv)
    as (n & ts & p & _ & (Hz & Hp & _) & H1 & H2 & H3 & HhV & _ & H4).
  cbv zeta in *.
  set (z := impedance self) in *.
  set (V := map (SimRC.sample self) ts) in *.
  assert (Hbound : forall v : R, In v V -> - SimRC.amp <= v <= SimRC.amp).
  { apply (sample_within_amplitude V (SimRC.with_Z self z) ts); reflexivity. }
  assert (HM : forall x : R, In x V -> Rabs x <= SimRC.amp).
  { intros x Hx. apply Rabs_le. apply Hbound. exact Hx. }
  assert (HpM : p <= 2 * SimRC.amp)
    by (exact (proj1 (amplitudes_le V _ p SimRC.amp HhV HM))).
  exists (compared self ts p). split.
  { unfold SimRC.compare. rewrite H1. cbn [Py.bind]. rewrite H2. cbn [Py.bind].
    rewrite H3. cbn [Py.bind]. exact H4. }
  unfold compared.
  cbn [SimRC.V_amp SimRC.I_amp SimRC.I_out SimRC.Z SimRC.with_dfts
       SimRC.with_I_out SimRC.with_t_V_in SimRC.with_Z].
  fold z V.
  assert (Hiz : 0 < / z) by (apply Rinv_0_lt_compat; exact Hz).
  split; [split; assumption|]. split; [unfold SimRC.amp; lra|].
  split.
  - split; [apply Rdiv_lt_0_compat; assumption|].
    unfold Rdiv. apply Rmult_le_compat_r; lra.
  - intros i Hi. apply in_map_iff in Hi. destruct Hi as (v & <- & Hv').
    destruct (Hbound v Hv') as [Hlo Hhi]. unfold Rdiv. split; nra.
Qed.

(** At the class defaults. *)
Lemma X14_peaks_bounded_witness :
  SimRC.valid SimRC.init = true /\
  exists s' : SimRC.state,
    SimRC.compare SimRC.init = Py.Ok s' /\
    0 < SimRC.V_amp s' <= 2 * SimRC.amp /\ 2 * SimRC.amp = 3.3 /\
    0 < SimRC.I_amp s' <= 2 * SimRC.amp / SimRC.Z s' /\
    forall i : R, In i (SimRC.I_out s') ->
      - (SimRC.amp / SimRC.Z s') <= i <= SimRC.amp / SimRC.Z s'.
Proof.
  split; [reflexivity|].
  exact (X14_peaks_bounded SimRC.init eq_refl).
Defined.

(** X15: on arrays [V_in] and [I_out] of numbers (no infinity, no NaN:
    what [set_I_out] stores when [Z] is not zero), and in exact real
    arithmetic, [set_dfts] fails exactly when [V_in] or [I_out] has fewer
    than two samples, with [ValueError]; otherwise it leaves both unchanged
    and stores non-negative peaks and their quotient: finite and
    non-negative when the current peak is non-zero, plus infinity when only
    the current peak is zero, NaN when both are; never a negative number or
    minus infinity. *)
Theorem X15_set_dfts_outcomes (self : SimRC.state) :
  match SimRC.set_dfts self with
  | Py.Ok s' =>
      (2 <= length (SimRC.V_in self))%nat /\ (2 <= length (SimRC.I_out self))%nat /\
      SimRC.V_in s' = SimRC.V_in self /\ SimRC.I_out s' = SimRC.I_out self /\
      0 <= SimRC.V_amp s' /\ 0 <= SimRC.I_amp s' /\
      match SimRC.Z_calc s' with
      | Np.Finite x =>
          SimRC.I_amp s' <> 0 /\ x = SimRC.V_amp s' / SimRC.I_amp s' /\ 0 <= x
      | Np.Inf negative =>
          negative = false /\ SimRC.I_amp s' = 0 /\ 0 < SimRC.V_amp s'
      | Np.NaN => SimRC.I_amp s' = 0 /\ SimRC.V_amp s' = 0
      end
  | Py.Raise e =>
      e = Py.ValueError /\
      ((length (SimRC.V_in self) < 2)%nat \/ (length (SimRC.I_out self) < 2)%nat)
  end.
Proof.
  unfold SimRC.set_dfts.
  destruct (le_lt_dec 2 (length (SimRC.V_in self))) as [HV|HV].
  2:{ rewrite half_spectrum_short by exact HV. cbn [Py.bind].
      split; [reflexivity|left; exact HV]. }
  destruct (half_spectrum_spec _ HV) as (p & -> & Hp & _). cbn [Py.bind].
  destruct (le_lt_dec 2 (length (SimRC.I_out self))) as [HI|HI].
  2:{ rewrite half_spectrum_short by exact HI. cbn [Py.bind].
      split; [reflexivity|right; exact HI]. }
  destruct (half_spectrum_spec _ HI) as (q & -> & Hq & _). cbn [Py.bind fst snd].
  cbn [SimRC.V_in SimRC.I_out SimRC.V_amp SimRC.I_amp SimRC.Z_calc SimRC.with_dfts].
  apply spectrum_nonneg in Hp, Hq.
  repeat (split; [assumption || reflexivity|]).
  unfold Np.true_divide.
  destruct (Req_dec_T q 0) as [Eq|Nq].
  - destruct (Req_dec_T p 0) as [Ep|Np'].
    + split; assumption.
    + destruct (Rlt_dec p 0) as [Hneg|_]; [lra|].
      split; [reflexivity|]. split; [exact Eq|lra].
  - split; [exact Nq|]. split; [reflexivity|].
    apply Rmult_le_pos; [exact Hp|].
    left. apply Rinv_0_lt_compat. lra.
Qed.

(** X16: in exact real arithmetic, the methods a change of [cycle_num]
    alone triggers ([set_V_in], [set_I_out], [set_dfts]; [set_Z] does not
    depend on [cycle_num]) store as empirical impedance whatever positive
    [Z] the state holds, whether or not it is the impedance of the current
    parameters.  (In binary64 the stored value is that [Z] up to
    rounding.) *)
Theorem X16_empirical_echoes_stored_Z (self : SimRC.state) :
  SimRC.valid self = true -> 0 < SimRC.Z self ->
  exists s2 s3 s4 : SimRC.state,
    SimRC.set_V_in self = Py.Ok s2 /\ SimRC.set_I_out s2 = Py.Ok s3 /\
    SimRC.set_dfts s3 = Py.Ok s4 /\
    SimRC.Z s4 = SimRC.Z self /\
    SimRC.Z_calc s4 = Np.Finite (SimRC.Z self).
Proof.
  intros Hv Hz.
  destruct (set_V_in_spec self Hv) as (n & ts & _ & Hrange & HV & Hlen & Hts).
  set (z := SimRC.Z self) in *.
  set (V := map (SimRC.sample self) ts) in *.
  set (I := map (fun v => (- v) / z) V).
  assert (Hn99 : (99 <= n)%nat) by (apply (samples_count self Hv n Hrange)).
  assert (HlenV : length V = n) by (unfold V; rewrite length_map; exact Hlen).
  assert (HlenV2 : (2 <= length V)%nat) by lia.
  assert (HlenI2 : (2 <= length I)%nat) by (unfold I; rewrite length_map; lia).
  destruct (half_spectrum_spec V HlenV2) as (p & HhV & HpIn & HpUb).
  destruct (half_spectrum_spec I HlenI2) as (q & HhI & HqIn & HqUb).
  assert (Hp : 0 < p).
  { apply (peak_pos V p 1); try assumption; try lia.
    - apply (samples_first self Hv n ts Hrange Hlen Hts).
    - rewrite HlenV. apply (samples_last self Hv n ts Hrange Hlen Hts).
    - pose proof (samples_second self Hv n ts Hrange Hlen Hts) as H1.
      fold V in H1. lra. }
  assert (Hq : q = p / z).
  { unfold I in HqIn, HqUb. rewrite (spectrum_scaled z Hz) in HqIn, HqUb.
    apply (peak_scaled z Hz (spectrum V)); assumption. }
  subst q.
  do 3 eexists. split; [exact HV|]. split; [reflexivity|].
  unfold SimRC.set_dfts.
  cbn [SimRC.V_in SimRC.I_out SimRC.Z SimRC.with_t_V_in SimRC.with_I_out].
  fold z. fold I. rewrite HhV, HhI. cbn [Py.bind fst snd].
  split; [reflexivity|].
  cbn [SimRC.Z SimRC.Z_calc SimRC.with_dfts SimRC.with_I_out SimRC.with_t_V_in].
  rewrite true_divide_finite
    by (apply Rgt_not_eq; apply Rdiv_lt_0_compat; assumption).
  split; [reflexivity|]. f_equal. field. split; lra.
Qed.

(** The class defaults holding [Z = 5], which is not their impedance. *)
Lemma X16_empirical_echoes_stored_Z_witness :
  exists s2 s3 s4 : SimRC.state,
    SimRC.set_V_in (SimRC.with_Z SimRC.init 5) = Py.Ok s2 /\
    SimRC.set_I_out s2 = Py.Ok s3 /\
    SimRC.set_dfts s3 = Py.Ok s4 /\
    SimRC.Z s4 = 5 /\
    SimRC.Z_calc s4 = Np.Finite 5.
Proof.
  apply (X16_empirical_echoes_stored_Z (SimRC.with_Z SimRC.init 5)).
  - reflexivity.
  - simpl. lra.
Defined.

(** The outcome of a recomputation is a function of the four parameters. *)
Lemma compare_of_params (s1 s2 : SimRC.state) :
  SimRC.freq s1 = SimRC.freq s2 -> SimRC.cycle_num s1 = SimRC.cycle_num s2 ->
  SimRC.R s1 = SimRC.R s2 -> SimRC.nC s1 = SimRC.nC s2 ->
  SimRC.compare s1 = SimRC.compare s2.
Proof.
  destruct s1 as [f1 c1 r1 n1 z1 v1 t1 i1 vd1 id1 va1 ia1 zc1].
  destruct s2 as [f2 c2 r2 n2 z2 v2 t2 i2 vd2 id2 va2 ia2 zc2].
  cbn [SimRC.freq SimRC.cycle_num SimRC.R SimRC.nC].
  intros <- <- <- <-.
  unfold SimRC.compare, SimRC.set_Z.
  cbn [SimRC.freq SimRC.nC SimRC.R].
  destruct (Py.truediv _ _) as [x|e]; [|reflexivity]. cbn [Py.bind].
  unfold SimRC.set_V_in, SimRC.with_Z.
  cbn [SimRC.freq SimRC.cycle_num SimRC.R SimRC.nC SimRC.Z SimRC.V_in SimRC.t
       SimRC.I_out SimRC.V_dft SimRC.I_dft SimRC.V_amp SimRC.I_amp SimRC.Z_calc].
  destruct (Py.truediv _ _) as [d|e]; [|reflexivity]. cbn [Py.bind].
  destruct (SimRC.samp_num c1 f1) as [m|e]; [|reflexivity]. cbn [Py.bind].
  destruct (Np.linspace 0 d m) as [ts|e]; [|reflexivity]. cbn [Py.bind].
  unfold SimRC.set_I_out, SimRC.set_dfts, SimRC.with_t_V_in, SimRC.with_I_out,
    SimRC.with_dfts, SimRC.sample.
  cbn [Py.bind SimRC.freq SimRC.cycle_num SimRC.R SimRC.nC SimRC.Z SimRC.V_in
       SimRC.t SimRC.I_out SimRC.V_dft SimRC.I_dft SimRC.V_amp SimRC.I_amp
       SimRC.Z_calc].
  destruct (SimRC.half_spectrum _) as [v|e]; [|reflexivity]. cbn [Py.bind].
  destruct (SimRC.half_spectrum _) as [i|e]; reflexivity.
Qed.

(** A recomputation that returns has left the four parameters alone. *)
Lemma compare_keeps_params (self s' : SimRC.state) :
  SimRC.compare self = Py.Ok s' ->
  SimRC.freq s' = SimRC.freq self /\ SimRC.cycle_num s' = SimRC.cycle_num self /\
  SimRC.R s' = SimRC.R self /\ SimRC.nC s' = SimRC.nC self.
Proof.
  unfold SimRC.compare. intros H.
  destruct (SimRC.set_Z self) as [s1|e] eqn:E1; [|discriminate H].
  cbn [Py.bind] in H.
  destruct (SimRC.set_V_in s1) as [s2|e] eqn:E2; [|discriminate H].
  cbn [Py.bind] in H.
  unfold SimRC.set_I_out in H. cbn [Py.bind] in H.
  unfold SimRC.set_dfts in H.
  destruct (SimRC.half_spectrum _) as [v|e]; [|discriminate H]. cbn [Py.bind] in H.
  destruct (SimRC.half_spectrum _) as [i|e]; [|discriminate H]. cbn [Py.bind] in H.
  injection H as <-.
  destruct (set_V_in_inv s1 s2 E2) as (ts & ->).
  unfold SimRC.set_Z in E1.
  destruct (Py.truediv _ _) as [x|e]; [|discriminate E1]. cbn [Py.bind] in E1.
  injection E1 as <-.
  repeat split; reflexivity.
Qed.

(** X17: a recomputation overwrites every field it does not read: two
    states with the same four parameters give the same outcome, whatever
    the other fields held before. *)
Theorem X17_compare_ignores_stale_fields (s1 s2 : SimRC.state) :
  SimRC.freq s1 = SimRC.freq s2 -> SimRC.cycle_num s1 = SimRC.cycle_num s2 ->
  SimRC.R s1 = SimRC.R s2 -> SimRC.nC s1 = SimRC.nC s2 ->
  SimRC.compare s1 = SimRC.compare s2.
Proof.
  intros Hf Hc Hr Hn. apply compare_of_params; assumption.
Qed.

(** The class defaults, bare and after a [set_Z] that stored 5. *)
Lemma X17_compare_ignores_stale_fields_witness :
  SimRC.compare SimRC.init = SimRC.compare (SimRC.with_Z SimRC.init 5).
Proof.
  apply (X17_compare_ignores_stale_fields SimRC.init (SimRC.with_Z SimRC.init 5));
    reflexivity.
Defined.

Lemma zero_cycles_check : forall_from (100 * 100) 1 zero_cycles_empty = true.
Proof. vm_compute. reflexivity. Qed.

Lemma samp_num_zero_cycles (f : Z) :
  (1 <= f <= 10000)%Z -> SimRC.samp_num 0 f = Py.Ok 0%Z.
Proof.
  intros Hf.
  assert (Hf' : (1 <= f < 1 + Z.of_nat (100 * 100))%Z).
  { replace (Z.of_nat (100 * 100)) with 10000%Z by (vm_compute; reflexivity). lia. }
  pose proof (forall_from_spec _ _ _ zero_cycles_check f Hf') as H.
  unfold zero_cycles_empty in H.
  rewrite samp_num_prim_eq by lia.
  destruct (samp_num_prim 0 f) as [n|e]; [|discriminate H].
  apply Z.eqb_eq in H. rewrite H. reflexivity.
Qed.

(** X18: with [cycle_num = 0], just below its bounds, and the other three
    parameters within theirs, [set_V_in] returns with empty [t] and [V_in]
    instead of failing; the failure comes later, as the [ValueError]
    [set_dfts] gets from [np.fft.fft] on the empty array. *)
Theorem X18_zero_cycles (self : SimRC.state) :
  SimRC.cycle_num self = 0%Z ->
  SimRC.within SimRC.freq_bounds (SimRC.freq self) = true ->
  SimRC.within SimRC.R_bounds (SimRC.R self) = true ->
  SimRC.within SimRC.nC_bounds (SimRC.nC self) = true ->
  (exists s' : SimRC.state,
     SimRC.set_V_in self = Py.Ok s' /\ SimRC.t s' = [] /\ SimRC.V_in s' = []) /\
  SimRC.compare self = Py.Raise Py.ValueError.
Proof.
  intros Hc Hf _ Hn.
  unfold SimRC.within in Hf, Hn. cbn [fst snd SimRC.freq_bounds SimRC.nC_bounds] in Hf, Hn.
  apply andb_prop in Hf, Hn. destruct Hf as [Hf1 Hf2]. destruct Hn as [Hn1 _].
  apply Z.leb_le in Hf1, Hf2, Hn1.
  assert (Hf : (1 <= SimRC.freq self <= 10000)%Z) by lia.
  assert (Hn : SimRC.nC self <> 0%Z) by lia.
  assert (Hs : SimRC.samp_num (SimRC.cycle_num self) (SimRC.freq self) = Py.Ok 0%Z)
    by (rewrite Hc; apply samp_num_zero_cycles; exact Hf).
  split.
  - rewrite (set_V_in_unfold self 0%Z) by (assumption || lia).
    eexists. split; [reflexivity|]. split; reflexivity.
  - apply (compare_value_error self 0%Z); try assumption; lia.
Qed.

(** The class defaults with [cycle_num = 0]. *)
Lemma X18_zero_cycles_witness :
  (exists s' : SimRC.state,
     SimRC.set_V_in (SimRC.with_params SimRC.init 1 0 1 1) = Py.Ok s' /\
     SimRC.t s' = [] /\ SimRC.V_in s' = []) /\
  SimRC.compare (SimRC.with_params SimRC.init 1 0 1 1) = Py.Raise Py.ValueError.
Proof.
  apply (X18_zero_cycles (SimRC.with_params SimRC.init 1 0 1 1)); reflexivity.
Defined.

(** X19: a recomputation that returns has reached a fixed point: it has
    left the four parameters untouched, and run again on its own result it
    returns that result unchanged. *)
Theorem X19_compare_idempotent (self s' : SimRC.state) :
  SimRC.compare self = Py.Ok s' ->
  SimRC.freq s' = SimRC.freq self /\ SimRC.cycle_num s' = SimRC.cycle_num self /\
  SimRC.R s' = SimRC.R self /\ SimRC.nC s' = SimRC.nC self /\
  SimRC.compare s' = Py.Ok s'.
Proof.
  intros H. destruct (compare_keeps_params self s' H) as (Hf & Hc & Hr & Hn).
  repeat (split; [assumption|]).
  rewrite (compare_of_params s' self Hf Hc Hr Hn). exact H.
Qed.

(** At the class defaults. *)
Lemma X19_compare_idempotent_witness :
  exists s' : SimRC.state,
    SimRC.compare SimRC.init = Py.Ok s' /\
    SimRC.freq s' = 1%Z /\ SimRC.cycle_num s' = 1%Z /\
    SimRC.R s' = 1%Z /\ SimRC.nC s' = 1%Z /\
    SimRC.compare s' = Py.Ok s'.
Proof.
  destruct (compare_spec SimRC.init eq_refl) as (n & ts & p & _ & _ & _ & _ & H).
  exists (compared SimRC.init ts p). split; [exact H|].
  exact (X19_compare_idempotent SimRC.init _ H).
Defined.

End PipelineMore.
